(** * Circular Error Probable: the [calculate_cep] routine of [calculate_cep.py]

    The program is one numeric routine over NumPy's float64 arrays.  It is
    embedded once, over an interface of the arithmetic it uses, and read at
    two instances:

    - [float64]: IEEE 754 binary64 with round-to-nearest-even, the arithmetic
      the program runs on (Rocq's primitive floats).  The model has one
      NaN: the sign bit and the payload a NaN carries on the machine are not
      represented, so two outcomes that are NaN are equal in the model
      whatever their bits in the program;
    - [exact]: the real numbers, the arithmetic the formulas of the
      specification are written in.

    NumPy is not part of the repository; the entry points the routine calls
    ([np.array], column indexing, [np.std], [np.sqrt], [np.log]) are modelled
    in [Module Numpy] after NumPy's implementation ([_methods._var],
    [_methods._std] and the pairwise summation of [np.add.reduce]).

    A sample is a list of pairs of float64 values, or an array of shape
    (N, 2).  Under NumPy's default error state a division by zero, an
    invalid operation or an overflow raises no Python exception: the
    operation returns the IEEE result and NumPy issues a RuntimeWarning.
    The value of the routine is embedded as a function ([calculate_cep]);
    the objects it creates and the warnings it issues are embedded in
    [Module Store], where a run threads the heap of Python objects and the
    list of warnings handed to Python's [warnings] module.

    The statements under [if __name__ == "__main__"] are embedded in
    [Module Script], standard output being a string the [print]s append to;
    the [.2f] and [.3f] of their f-strings are modelled in [Module Format]
    after Python's formatting of floats (the nearest decimal with that many
    places, a tie going to the even last digit). *)

From Stdlib Require Import List ZArith Lia Bool Permutation.
From Stdlib Require Import QArith Qabs Qreals.
From Stdlib Require Import Floats.
From Stdlib Require Import Reals Lra.
From Stdlib Require String Ascii.
Import ListNotations.

Set Implicit Arguments.

(** ** Arithmetic interface *)

(** The scalar operations the routine performs, the conversion of a Python
    integer ([of_int]) and the one value of the natural logarithm it asks for
    ([log_half] is [np.log(0.5)]). *)
Class Arith (F : Type) : Type := {
  fzero : F;
  fadd : F -> F -> F;
  fsub : F -> F -> F;
  fmul : F -> F -> F;
  fdiv : F -> F -> F;
  fsqrt : F -> F;
  of_int : Z -> F;
  log_half : F
}.

(** Python [int] to float64: correctly rounded, exact below 2^53. *)
Definition float_of_int (z : Z) : float :=
  match z with
  | Zneg p => PrimFloat.opp (PrimFloat.of_uint63 (Uint63.of_Z (Zpos p)))
  | _ => PrimFloat.of_uint63 (Uint63.of_Z z)
  end.

(** [np.log(0.5)]: the double nearest to ln(1/2) = -0.69314718055994530941...
    A correctly rounded logarithm returns it, and so do the usual
    implementations, which reduce the argument 2^-1 to the constant ln 2.
    The theorems below depend on its sign and on its first decimals only. *)
Definition float_log_half : float := (-0x1.62e42fefa39efp-1)%float.

(** Rocq's primitive floats: binary64, every operation rounded to nearest
    even.  All NaNs are one value here; the operations of the machine keep
    or flip the sign bit of a NaN and carry its payload, which nothing
    below can see. *)
#[export] Instance float64 : Arith float := {
  fzero := 0%float;
  fadd := PrimFloat.add;
  fsub := PrimFloat.sub;
  fmul := PrimFloat.mul;
  fdiv := PrimFloat.div;
  fsqrt := PrimFloat.sqrt;
  of_int := float_of_int;
  log_half := float_log_half
}.

#[export] Instance exact : Arith R := {
  fzero := 0%R;
  fadd := Rplus;
  fsub := Rminus;
  fmul := Rmult;
  fdiv := Rdiv;
  fsqrt := R_sqrt.sqrt;
  of_int := IZR;
  log_half := ln (1 / 2)
}.

(** ** Floating-point exceptions *)

(** The IEEE exceptions NumPy reports under its default error state
    (underflow is ignored, inexact is never reported). *)
Inductive fpe : Type :=
| DivideByZero
| Overflow
| Invalid.

(** The status flags an operation, or the loop of a NumPy function, leaves
    raised. *)
Record fpstatus : Type := Status {
  divide_by_zero : bool;
  overflow : bool;
  invalid : bool
}.

Definition quiet : fpstatus := Status false false false.

Definition join (a b : fpstatus) : fpstatus :=
  Status (divide_by_zero a || divide_by_zero b)
         (overflow a || overflow b)
         (invalid a || invalid b).

(** The flags each operation of an arithmetic raises on given operands. *)
Class Exceptions (F : Type) : Type := {
  add_status : F -> F -> fpstatus;
  sub_status : F -> F -> fpstatus;
  mul_status : F -> F -> fpstatus;
  div_status : F -> F -> fpstatus;
  sqrt_status : F -> fpstatus;
  square_status : F -> fpstatus
}.

(** IEEE 754 on the result [r] of an operation on [x] and [y]: invalid when
    the result is NaN and no operand is (inf - inf, 0 * inf, 0 / 0,
    inf / inf, the square root of a negative number); overflow when the
    operands are finite and the rounded result is infinite; in a division,
    that is a division by zero if the divisor is a zero. *)
Definition raised (x y r : float) : fpstatus :=
  Status false
         (is_infinity r && is_finite x && is_finite y)
         (is_nan r && negb (is_nan x) && negb (is_nan y)).

Definition raised_div (x y r : float) : fpstatus :=
  Status (is_infinity r && is_finite x && is_zero y)
         (is_infinity r && is_finite x && is_finite y && negb (is_zero y))
         (is_nan r && negb (is_nan x) && negb (is_nan y)).

Definition raised1 (x r : float) : fpstatus :=
  Status false (is_infinity r && is_finite x) (is_nan r && negb (is_nan x)).

#[export] Instance float64_exceptions : Exceptions float := {
  add_status x y := raised x y (PrimFloat.add x y);
  sub_status x y := raised x y (PrimFloat.sub x y);
  mul_status x y := raised x y (PrimFloat.mul x y);
  div_status x y := raised_div x y (PrimFloat.div x y);
  sqrt_status x := raised1 x (PrimFloat.sqrt x);
  square_status x := raised1 x (PrimFloat.mul x x)
}.

(** Exact arithmetic raises nothing. *)
#[export] Instance exact_exceptions : Exceptions R := {
  add_status _ _ := quiet;
  sub_status _ _ := quiet;
  mul_status _ _ := quiet;
  div_status _ _ := quiet;
  sqrt_status _ := quiet;
  square_status _ := quiet
}.

(** An arithmetic that carries, with each value, the flags raised on the
    way to it: the status word of the processor over the loop of one NumPy
    function. *)
Section Tracking.
Context {F : Type} {A : Arith F} {E : Exceptions F}.

Definition tracked : Type := F * fpstatus.

Definition untracked (v : F) : tracked := (v, quiet).

Definition tracking : Arith tracked := {|
  fzero := (fzero, quiet);
  fadd x y := (fadd (fst x) (fst y),
               join (join (snd x) (snd y)) (add_status (fst x) (fst y)));
  fsub x y := (fsub (fst x) (fst y),
               join (join (snd x) (snd y)) (sub_status (fst x) (fst y)));
  fmul x y := (fmul (fst x) (fst y),
               join (join (snd x) (snd y)) (mul_status (fst x) (fst y)));
  fdiv x y := (fdiv (fst x) (fst y),
               join (join (snd x) (snd y)) (div_status (fst x) (fst y)));
  fsqrt x := (fsqrt (fst x), join (snd x) (sqrt_status (fst x)));
  of_int z := (of_int z, quiet);
  log_half := (log_half, quiet)
|}.

End Tracking.

(** ** Exceptions *)

Inductive exn : Type :=
| IndexError
| TypeError.

Inductive result (X : Type) : Type :=
| Ok (x : X)
| Raise (e : exn).

Arguments Ok {X} x.
Arguments Raise {X} e.

Definition bind {X Y : Type} (r : result X) (k : X -> result Y) : result Y :=
  match r with
  | Ok x => k x
  | Raise e => Raise e
  end.

Notation "x <- r ;; k" := (bind r (fun x => k))
  (at level 61, r at next level, right associativity).

(** ** The NumPy entry points *)

Module Numpy.
Section WithArith.
Context {F : Type} {A : Arith F}.

(** An array as [np.array] builds it from a list of pairs: the empty list
    gives a one-dimensional array of shape (0,), a list of N >= 1 pairs a
    two-dimensional array of shape (N, 2).  A caller can also pass an array
    of its own: one-dimensional, or of shape (N, 2) with N >= 0. *)
Inductive ndarray : Type :=
| Arr1 (items : list F)
| Arr2 (rows : list (F * F)).

Definition array (coordinates : list (F * F)) : ndarray :=
  match coordinates with
  | [] => Arr1 []
  | _ :: _ => Arr2 coordinates
  end.

(** [data[:, k]]: two indices on a one-dimensional array raise IndexError
    ("too many indices for array"), and so does a column other than 0 or 1
    of an array of shape (N, 2). *)
Definition column (data : ndarray) (k : nat) : result (list F) :=
  match data with
  | Arr1 _ => Raise IndexError
  | Arr2 rows =>
      match k with
      | 0%nat => Ok (map fst rows)
      | 1%nat => Ok (map snd rows)
      | _ => Raise IndexError
      end
  end.

(** *** [np.add.reduce]: pairwise summation *)

(** The loop of the blocked case: eight accumulators take eight items per
    turn while eight remain; the accumulators are then added as a balanced
    tree and the remaining items one by one. *)
Fixpoint unrolled8 (r0 r1 r2 r3 r4 r5 r6 r7 : F) (l : list F) {struct l} : F :=
  match l with
  | a0 :: a1 :: a2 :: a3 :: a4 :: a5 :: a6 :: a7 :: l' =>
      unrolled8 (fadd r0 a0) (fadd r1 a1) (fadd r2 a2) (fadd r3 a3)
                (fadd r4 a4) (fadd r5 a5) (fadd r6 a6) (fadd r7 a7) l'
  | rest =>
      fold_left fadd rest
        (fadd (fadd (fadd r0 r1) (fadd r2 r3)) (fadd (fadd r4 r5) (fadd r6 r7)))
  end.

(** Fewer than 8 items: a running sum from 0.  Otherwise the first eight
    items start the accumulators of the blocked sum. *)
Definition block_sum (l : list F) : F :=
  match l with
  | a0 :: a1 :: a2 :: a3 :: a4 :: a5 :: a6 :: a7 :: l' =>
      unrolled8 a0 a1 a2 a3 a4 a5 a6 a7 l'
  | _ => fold_left fadd l fzero
  end.

(** More than 128 items: split at half the length, rounded down to a
    multiple of 8, and add the sums of the two parts.  Both parts are
    shorter than the whole, so [length l] turns of [fuel] suffice
    ([pairwise_sum_fuel] below). *)
Fixpoint pairwise_sum (fuel : nat) (l : list F) {struct fuel} : F :=
  match fuel with
  | S fuel' =>
      let n := length l in
      if (128 <? n)%nat then
        let n2 := (n / 2 - (n / 2) mod 8)%nat in
        fadd (pairwise_sum fuel' (firstn n2 l)) (pairwise_sum fuel' (skipn n2 l))
      else block_sum l
  | O => block_sum l
  end.

(** The reduction starts from the identity 0 and adds the pairwise sum of
    the items.  (Some NumPy versions start from -0.0 instead, here and in
    the running sum of [block_sum]; that changes the sign of a zero sum and
    nothing else, and the routine squares the only values it could reach.) *)
Definition sum (l : list F) : F :=
  fadd fzero (pairwise_sum (length l) l).

(** *** [np.std(a, ddof=ddof)] on a one-dimensional array *)

(** [arrmean = umr_sum(arr) / rcount] *)
Definition mean (a : list F) : F :=
  fdiv (sum a) (of_int (Z.of_nat (length a))).

(** [x = arr - arrmean; x = multiply(x, x); ret = umr_sum(x);
     rcount = maximum(rcount - ddof, 0); ret = ret / rcount] *)
Definition var (a : list F) (ddof : Z) : F :=
  let arrmean := mean a in
  let x := map (fun v => fsub v arrmean) a in
  let x := map (fun d => fmul d d) x in
  let rcount := Z.max (Z.of_nat (length a) - ddof) 0 in
  fdiv (sum x) (of_int rcount).

Definition std (a : list F) (ddof : Z) : F :=
  fsqrt (var a ddof).

End WithArith.

Arguments ndarray : clear implicits.

End Numpy.

(** The flags a reduction by addition leaves raised: the loop of
    [Numpy.sum], run on the arithmetic that carries the status. *)
Definition sum_status {F : Type} {A : Arith F} {E : Exceptions F}
    (l : list F) : fpstatus :=
  snd (Numpy.sum (A := tracking) (map untracked l)).

(** The flags of a loop that applies one operation to each item. *)
Definition each_status {F : Type} (f : F -> fpstatus) (l : list F) : fpstatus :=
  fold_right (fun v st => join (f v) st) quiet l.

(** ** The routine *)

Section CalculateCep.
Context {F : Type} {A : Arith F}.

(** [v ** 2].  The power of a float64 scalar goes through the C library's
    [pow], which is not part of the repository and is not correctly rounded
    at every argument.  The model takes the correctly rounded square.  The
    two agree at NaN, at the infinities and wherever the square is itself a
    double (0, 2, the powers of two); elsewhere the library's result can be
    a neighbouring double, and a value computed below through an inexact
    square is the model's.  What is proved for every sample in double
    precision uses of [square] only that it maps NaN to NaN, an infinity to
    an infinity and never gives a negative number. *)
Definition square (v : F) : F := fmul v v.

(** [cep_constant = np.sqrt(-2 * np.log(0.5))] *)
Definition cep_constant : F := fsqrt (fmul (of_int (-2)) log_half).

Definition calculate_cep (coordinates : list (F * F)) : result F :=
  let data := Numpy.array coordinates in
  col0 <- Numpy.column data 0 ;;
  let std_x := Numpy.std col0 1 in
  col1 <- Numpy.column data 1 ;;
  let std_y := Numpy.std col1 1 in
  let sigma_r := fsqrt (fadd (square std_x) (square std_y)) in
  let cep := fmul cep_constant sigma_r in
  Ok cep.

(** The routine on an argument that is an array already: [np.array] copies
    it, and the copy has the shape and the items of the argument. *)
Definition calculate_cep_ndarray (coordinates : Numpy.ndarray F) : result F :=
  let data := coordinates in
  col0 <- Numpy.column data 0 ;;
  let std_x := Numpy.std col0 1 in
  col1 <- Numpy.column data 1 ;;
  let std_y := Numpy.std col1 1 in
  let sigma_r := fsqrt (fadd (square std_x) (square std_y)) in
  let cep := fmul cep_constant sigma_r in
  Ok cep.

(** The two transformations of a sample the properties speak of. *)
Definition translate (dx dy : F) (p : F * F) : F * F :=
  (fadd (fst p) dx, fadd (snd p) dy).

Definition scale (k : F) (p : F * F) : F * F :=
  (fmul k (fst p), fmul k (snd p)).

(** [k] times an outcome: an error stays that error. *)
Definition times (k : F) (r : result F) : result F :=
  v <- r ;; Ok (fmul k v).

End CalculateCep.

(** The routine on double-precision samples, and on real ones. *)
Definition cep64 (coordinates : list (float * float)) : result float :=
  calculate_cep coordinates.

Definition cepR (coordinates : list (R * R)) : result R :=
  calculate_cep coordinates.

Definition cep64_ndarray (coordinates : Numpy.ndarray float) : result float :=
  calculate_cep_ndarray coordinates.

(** ** The formulas of the specification *)

(** Written from the specification's words, over the real numbers and with
    the functions of the real library, not those of the routine:
    [std = sqrt(sum((v_i - mean(v))^2) / (N-1))],
    [sigma_r = sqrt(std_x^2 + std_y^2)] and
    [CEP = sigma_r * sqrt(-2 * ln(0.5))]. *)
Module Spec.

(** The sum of a list of reals. *)
Definition sigma (l : list R) : R := fold_right Rplus 0%R l.

Definition mean (v : list R) : R := (sigma v / INR (length v))%R.

Definition std (v : list R) : R :=
  R_sqrt.sqrt (sigma (map (fun v_i => (v_i - mean v) ^ 2) v)
               / (INR (length v) - 1))%R.

Definition sigma_r (sample : list (R * R)) : R :=
  R_sqrt.sqrt (std (map fst sample) ^ 2 + std (map snd sample) ^ 2)%R.

Definition CEP (sample : list (R * R)) : R :=
  (sigma_r sample * R_sqrt.sqrt (-2 * ln (1 / 2)))%R.

End Spec.

(** ** The routine over a store of Python objects *)

(** The same statements with what they touch made explicit.  The caller's
    list lives in a heap; [np.array] copies it into a new array, [data[:, k]]
    is a view of that array (no copy), and [np.std] computes [arr - arrmean]
    into a new array which it then squares in place.  After the loop of each
    NumPy function the flags it raised are reported: under the default error
    state each raised flag is one RuntimeWarning handed to Python's
    [warnings] module (which prints it on the standard error stream and
    records it in a registry, or not, as its filters say; that part is not
    modelled). *)
Module Store.

Inductive warning : Type :=
| DegreesOfFreedom        (* "Degrees of freedom <= 0 for slice" *)
| Encountered (e : fpe).  (* "... encountered in ..." *)

(** The warnings for the flags of one NumPy function, in the order NumPy
    reports them. *)
Definition report (st : fpstatus) : list warning :=
  (if divide_by_zero st then [Encountered DivideByZero] else []) ++
  (if overflow st then [Encountered Overflow] else []) ++
  (if invalid st then [Encountered Invalid] else []).

Section WithArith.
Context {F : Type} {A : Arith F} {E : Exceptions F}.

Inductive object : Type :=
| PyList (items : list (F * F))
| NdArray (a : Numpy.ndarray F).

Definition loc : Type := nat.
Definition heap : Type := list object.

(** What a call can change: the objects, and the warnings issued so far. *)
Record state : Type := State { objects : heap; warned : list warning }.

(** A view of one column of the array at [base]. *)
Record view : Type := View { base : loc; col : nat }.

Definition M (X : Type) : Type := state -> result X * state.

Definition ret {X : Type} (x : X) : M X := fun s => (Ok x, s).

Definition raise {X : Type} (e : exn) : M X := fun s => (Raise e, s).

Definition mbind {X Y : Type} (m : M X) (k : X -> M Y) : M Y :=
  fun s =>
    match m s with
    | (Ok x, s') => k x s'
    | (Raise e, s') => (Raise e, s')
    end.

Definition lift {X : Type} (r : result X) : M X := fun s => (r, s).

(** A new object takes the next free location. *)
Definition alloc (o : object) : M loc :=
  fun s => (Ok (length (objects s)), State (objects s ++ [o]) (warned s)).

(** Reading a location; a location outside the heap is no Python object. *)
Definition load (l : loc) : M object :=
  fun s =>
    match nth_error (objects s) l with
    | Some o => (Ok o, s)
    | None => (Raise TypeError, s)
    end.

Fixpoint replace (l : loc) (o : object) (h : heap) : heap :=
  match h, l with
  | [], _ => []
  | _ :: h', O => o :: h'
  | o' :: h', S l' => o' :: replace l' o h'
  end.

Definition store (l : loc) (o : object) : M unit :=
  fun s => (Ok tt, State (replace l o (objects s)) (warned s)).

(** [warnings.warn(..., RuntimeWarning)] *)
Definition warn (w : warning) : M unit :=
  fun s => (Ok tt, State (objects s) (warned s ++ [w])).

(** The check of the status flags at the end of a NumPy function. *)
Definition fperr (st : fpstatus) : M unit :=
  fun s => (Ok tt, State (objects s) (warned s ++ report st)).

(** [np.array(coordinates)]: always a new array. *)
Definition np_array (coordinates : loc) : M loc :=
  mbind (load coordinates) (fun o =>
    match o with
    | PyList items => alloc (NdArray (Numpy.array items))
    | NdArray a => alloc (NdArray a)
    end).

(** [data[:, k]] *)
Definition getitem_column (data : loc) (k : nat) : M view :=
  mbind (load data) (fun o =>
    match o with
    | NdArray a =>
        mbind (lift (Numpy.column a k)) (fun _ => ret (View data k))
    | PyList _ => raise TypeError
    end).

Definition read_view (v : view) : M (list F) :=
  mbind (load (base v)) (fun o =>
    match o with
    | NdArray a => lift (Numpy.column a (col v))
    | PyList _ => raise TypeError
    end).

(** [multiply(x, x, out=x)] on a one-dimensional array. *)
Definition multiply_inplace (x : loc) : M unit :=
  mbind (load x) (fun o =>
    match o with
    | NdArray (Numpy.Arr1 items) =>
        mbind (store x (NdArray (Numpy.Arr1 (map (fun d => fmul d d) items))))
              (fun _ => fperr (each_status (fun d => mul_status d d) items))
    | _ => raise TypeError
    end).

Definition read1 (x : loc) : M (list F) :=
  mbind (load x) (fun o =>
    match o with
    | NdArray (Numpy.Arr1 items) => ret items
    | _ => raise TypeError
    end).

(** [np.std(a, ddof=ddof)] on a view, statement by statement of
    [_methods._var] and [_methods._std]:
    [if ddof >= rcount: warnings.warn("Degrees of freedom <= 0 for slice")],
    [arrmean = umr_sum(arr)], [arrmean = true_divide(arrmean, rcount)],
    [x = arr - arrmean], [x = multiply(x, x, out=x)], [ret = umr_sum(x)],
    [rcount = maximum(rcount - ddof, 0)], [ret = ret / rcount],
    [ret = sqrt(ret)]. *)
Definition np_std (a : view) (ddof : Z) : M F :=
  mbind (read_view a) (fun arr =>
    let rcount := Z.of_nat (length arr) in
    mbind (if (rcount <=? ddof)%Z then warn DegreesOfFreedom else ret tt) (fun _ =>
    mbind (fperr (sum_status arr)) (fun _ =>
    mbind (fperr (div_status (Numpy.sum arr) (of_int rcount))) (fun _ =>
    let arrmean := Numpy.mean arr in
    mbind (alloc (NdArray (Numpy.Arr1 (map (fun v => fsub v arrmean) arr)))) (fun x =>
    mbind (fperr (each_status (fun v => sub_status v arrmean) arr)) (fun _ =>
    mbind (multiply_inplace x) (fun _ =>
    mbind (read1 x) (fun xs =>
    mbind (fperr (sum_status xs)) (fun _ =>
      let rcount := Z.max (rcount - ddof) 0 in
    mbind (fperr (div_status (Numpy.sum xs) (of_int rcount))) (fun _ =>
      let ret_ := fdiv (Numpy.sum xs) (of_int rcount) in
    mbind (fperr (sqrt_status ret_)) (fun _ =>
      ret (fsqrt ret_)))))))))))).

(** The statements of the routine after [data = np.array(coordinates)],
    each scalar operation followed by the report of its flags. *)
Definition statements (data : loc) : M F :=
  mbind (getitem_column data 0) (fun col0 =>
  mbind (np_std col0 1) (fun std_x =>
  mbind (getitem_column data 1) (fun col1 =>
  mbind (np_std col1 1) (fun std_y =>
  mbind (fperr (square_status std_x)) (fun _ =>
  mbind (fperr (square_status std_y)) (fun _ =>
  mbind (fperr (add_status (square std_x) (square std_y))) (fun _ =>
  mbind (fperr (sqrt_status (fadd (square std_x) (square std_y)))) (fun _ =>
    let sigma_r := fsqrt (fadd (square std_x) (square std_y)) in
  mbind (fperr (mul_status (of_int (-2)) log_half)) (fun _ =>
  mbind (fperr (sqrt_status (fmul (of_int (-2)) log_half))) (fun _ =>
  mbind (fperr (mul_status cep_constant sigma_r)) (fun _ =>
    let cep := fmul cep_constant sigma_r in
    ret cep))))))))))).

Definition calculate_cep (coordinates : loc) : M F :=
  mbind (np_array coordinates) (fun data => statements data).

(** The warnings one call of [np_std] on the items [arr] issues, and those
    of a run of the routine on the columns [col0] and [col1], as lists:
    what the reports of the statements above add up to. *)
Definition std_warnings (arr : list F) (ddof : Z) : list warning :=
  let rcount := Z.of_nat (length arr) in
  let arrmean := Numpy.mean arr in
  let x := map (fun v => fsub v arrmean) arr in
  let xs := map (fun d => fmul d d) x in
  let ret_ := fdiv (Numpy.sum xs) (of_int (Z.max (rcount - ddof) 0)) in
  (if (rcount <=? ddof)%Z then [DegreesOfFreedom] else []) ++
  report (sum_status arr) ++
  report (div_status (Numpy.sum arr) (of_int rcount)) ++
  report (each_status (fun v => sub_status v arrmean) arr) ++
  report (each_status (fun d => mul_status d d) x) ++
  report (sum_status xs) ++
  report (div_status (Numpy.sum xs) (of_int (Z.max (rcount - ddof) 0))) ++
  report (sqrt_status ret_).

Definition routine_warnings (col0 col1 : list F) : list warning :=
  let std_x := Numpy.std col0 1 in
  let std_y := Numpy.std col1 1 in
  let sigma_r := fsqrt (fadd (square std_x) (square std_y)) in
  std_warnings col0 1 ++
  std_warnings col1 1 ++
  report (square_status std_x) ++
  report (square_status std_y) ++
  report (add_status (square std_x) (square std_y)) ++
  report (sqrt_status (fadd (square std_x) (square std_y))) ++
  report (mul_status (of_int (-2)) log_half) ++
  report (sqrt_status (fmul (of_int (-2)) log_half)) ++
  report (mul_status cep_constant sigma_r).

End WithArith.

Arguments object : clear implicits.
Arguments heap : clear implicits.
Arguments state : clear implicits.
Arguments M : clear implicits.

End Store.

(** ** Samples used below *)

Module Samples.
Local Open Scope float_scope.

(** 2^53 and the next double, 2^53 + 2. *)
Definition big : float := 0x1p53.
Definition big2 : float := 0x1.0000000000001p53.

Definition skewed_y : list (float * float) := [(0, big); (0, big2); (0, big2)].
Definition skewed_y_rev : list (float * float) := [(0, big2); (0, big2); (0, big)].
Definition skewed_both : list (float * float) :=
  [(big, big); (big2, big2); (big2, big2)].

(** Two points one unit apart. *)
Definition unit_pair : list (float * float) := [(0, 0); (1, 0)].

(** Three copies of the point (0.1, 0.1), 0.1 being the double nearest to
    one tenth. *)
Definition tenth : float := 0x1.999999999999ap-4.
Definition tenths : list (float * float) :=
  [(tenth, tenth); (tenth, tenth); (tenth, tenth)].

(** Two points 2^600 apart. *)
Definition wide_pair : list (float * float) := [(0, 0); (0x1p600, 0)].

(** The symmetric sample of the specification. *)
Definition cross : list (float * float) := [(1, 0); (-1, 0); (0, 1); (0, -1)].

Definition origin_twice : list (float * float) := [(0, 0); (0, 0)].

(** Sixteen points on the x axis: [h] and [-h] in the first two places of
    each block of eight, 0 elsewhere. *)
Definition sixteen (h : float) : list (float * float) :=
  [(h, 0); (-h, 0); (0, 0); (0, 0); (0, 0); (0, 0); (0, 0); (0, 0);
   (h, 0); (-h, 0); (0, 0); (0, 0); (0, 0); (0, 0); (0, 0); (0, 0)].

End Samples.

(** ** Reading a double *)

(** The rational a finite double stands for; [None] for infinities and NaN. *)
Definition float_value (x : float) : option Q :=
  match Prim2SF x with
  | S754_zero _ => Some 0%Q
  | S754_finite s m e =>
      let n := if s then Zneg m else Zpos m in
      Some (match e with
            | Zneg p => Qmake n (2 ^ p)
            | _ => inject_Z (n * 2 ^ e)
            end)
  | _ => None
  end.

(** The real number a finite double stands for (0 for the others). *)
Definition real_of (x : float) : R :=
  match float_value x with
  | Some q => Q2R q
  | None => 0%R
  end.

Definition real_point (p : float * float) : R * R :=
  (real_of (fst p), real_of (snd p)).

(** Two outcomes a caller cannot tell apart but by the bits of a NaN: the
    same error, or two NaNs, or the same double that is not NaN (then bit
    for bit, the sign of a zero included). *)
Definition same_outcome (r r' : result float) : Prop :=
  match r, r' with
  | Ok v, Ok v' => if is_nan v then is_nan v' = true else v' = v
  | Raise e, Raise e' => e' = e
  | _, _ => False
  end.

(** Equality of two outcomes, doubles compared bit for bit (NaN, of which
    the model has one, equal to NaN). *)
Definition result_eqb (r r' : result float) : bool :=
  match r, r' with
  | Ok v, Ok v' => PrimFloat.Leibniz.eqb v v'
  | Raise IndexError, Raise IndexError => true
  | Raise TypeError, Raise TypeError => true
  | _, _ => false
  end.

(** Not negative: NaN excluded, both zeros included. *)
Definition nonnegative (x : float) : bool := (0 <=? x)%float.

(** Some item of the list is NaN. *)
Definition some_nan (l : list float) : Prop :=
  Exists (fun v => is_nan v = true) l.

(** Not negative, as a property of the value a double stands for: NaN and
    both zeros pass, a finite or infinite value passes with sign bit clear. *)
Definition sf_nonneg (x : spec_float) : Prop :=
  match x with
  | S754_nan | S754_zero _ => True
  | S754_infinity s | S754_finite s _ _ => s = false
  end.

(** A zero of either sign, or NaN. *)
Definition sf_zero_or_nan (x : spec_float) : Prop :=
  match x with
  | S754_nan | S754_zero _ => True
  | _ => False
  end.

(** ** Symmetries of the plane *)

(** A point with its two coordinates exchanged. *)
Definition swap_axes {F : Type} (p : F * F) : F * F := (snd p, fst p).

(** The mirror images of a double-precision point, its x or its y negated,
    and the point turned by a quarter of a turn about the origin.  (The
    negation of a NaN is the NaN of the model; in the program it is a NaN
    with the other sign bit.) *)
Definition mirror_x (p : float * float) : float * float :=
  (PrimFloat.opp (fst p), snd p).

Definition mirror_y (p : float * float) : float * float :=
  (fst p, PrimFloat.opp (snd p)).

Definition quarter_turn (p : float * float) : float * float :=
  (PrimFloat.opp (snd p), fst p).

(** A real point turned by the angle [theta] about the origin. *)
Definition rotate (theta : R) (p : R * R) : R * R :=
  (cos theta * fst p - sin theta * snd p, sin theta * fst p + cos theta * snd p)%R.

(** ** More shapes of a double *)

(** NaN, or the infinity of sign [s]. *)
Definition inf_or_nan (s : bool) (x : spec_float) : Prop :=
  x = S754_nan \/ x = S754_infinity s.

(** The sign bit is clear (NaN has none). *)
Definition sf_sign_clear (x : spec_float) : Prop :=
  match x with
  | S754_nan => True
  | S754_zero s | S754_infinity s | S754_finite s _ _ => s = false
  end.

Definition sf_is_zero (x : spec_float) : Prop :=
  match x with S754_zero _ => True | _ => False end.

(** A zero or a finite number: neither NaN nor an infinity. *)
Definition sf_finite (x : spec_float) : Prop :=
  match x with
  | S754_zero _ | S754_finite _ _ _ => True
  | _ => False
  end.

(** [y] is the negation of [x], or both are zeros (of any signs). *)
Definition sf_mirror (x y : spec_float) : Prop :=
  y = SFopp x \/ (sf_is_zero x /\ sf_is_zero y).

Definition mirrored (x y : float) : Prop := sf_mirror (Prim2SF x) (Prim2SF y).

(** ** The script *)

(** [format(x, '.<digits>f')]: Python writes the decimal number with
    [digits] places nearest to the value of the double, a tie going to the
    even last digit, with the sign of the double (also on a zero); "nan",
    "inf" and "-inf" for the rest. *)
Module Format.
Import Stdlib.Strings.Ascii Stdlib.Strings.String.
Local Open Scope string_scope.

(** The integer nearest to [num / den] (for [0 <= num], [0 < den]), a tie
    going to the even one. *)
Definition round_half_even (num den : Z) : Z :=
  let q := (num / den)%Z in
  let r := (num mod den)%Z in
  match (2 * r ?= den)%Z with
  | Lt => q
  | Gt => (q + 1)%Z
  | Eq => if Z.even q then q else (q + 1)%Z
  end.

(** The integer nearest to [m * 2^e * 10^digits]. *)
Definition scaled (digits : nat) (m : positive) (e : Z) : Z :=
  match e with
  | Zneg p => round_half_even (Zpos m * 10 ^ Z.of_nat digits) (2 ^ Zpos p)
  | _ => (Zpos m * 2 ^ e * 10 ^ Z.of_nat digits)%Z
  end.

Definition digit (k : Z) : ascii :=
  ascii_of_nat (48 + Z.to_nat k).

(** The [width] lowest decimal digits of [n], highest first. *)
Fixpoint fraction (width : nat) (n : Z) : string :=
  match width with
  | O => EmptyString
  | S w => fraction w (n / 10) ++ String (digit (n mod 10)) EmptyString
  end.

(** The number of decimal digits of [n]; [fuel] bounds the count. *)
Fixpoint count_digits (fuel : nat) (n : Z) : nat :=
  match fuel with
  | O => 1%nat
  | S f => if (n <? 10)%Z then 1%nat else S (count_digits f (n / 10))
  end.

(** A natural number in decimal, without leading zeros. *)
Definition whole (n : Z) : string :=
  fraction (count_digits (Z.to_nat (Z.log2 n)) n) n.

(** [n] units of [10^-digits], written in decimal. *)
Definition render (digits : nat) (negative : bool) (n : Z) : string :=
  (if negative then "-" else EmptyString) ++
  whole (n / 10 ^ Z.of_nat digits) ++
  match digits with
  | O => EmptyString
  | S _ => "." ++ fraction digits (n mod 10 ^ Z.of_nat digits)
  end.

Definition format_f (digits : nat) (x : float) : string :=
  match Prim2SF x with
  | S754_nan => "nan"
  | S754_infinity s => if s then "-inf" else "inf"
  | S754_zero s => render digits s 0
  | S754_finite s m e => render digits s (scaled digits m e)
  end.

(** *** Reading a decimal number back *)

Definition digit_value (c : ascii) : option Z :=
  let n := nat_of_ascii c in
  if ((48 <=? n) && (n <=? 57))%nat then Some (Z.of_nat (n - 48)) else None.

Fixpoint digits_from (acc : Z) (s : string) : option Z :=
  match s with
  | EmptyString => Some acc
  | String c s' =>
      match digit_value c with
      | Some k => digits_from (10 * acc + k) s'
      | None => None
      end
  end.

(** Every character is a decimal digit. *)
Fixpoint all_digits (s : string) : bool :=
  match s with
  | EmptyString => true
  | String c s' =>
      match digit_value c with
      | Some _ => all_digits s'
      | None => false
      end
  end.

(** The text before the first point, and the text after it. *)
Fixpoint split_point (s : string) : string * string :=
  match s with
  | EmptyString => (EmptyString, EmptyString)
  | String c s' =>
      if Ascii.eqb c "." then (EmptyString, s')
      else let (a, b) := split_point s' in (String c a, b)
  end.

Definition read_unsigned (s : string) : option Q :=
  let (a, b) := split_point s in
  match digits_from 0 a, digits_from 0 b with
  | Some i, Some f =>
      Some (inject_Z i + Qmake f (Z.to_pos (10 ^ Z.of_nat (length b))))%Q
  | _, _ => None
  end.

Definition read_fixed (s : string) : option Q :=
  match s with
  | String c s' =>
      if Ascii.eqb c "-" then option_map Qopp (read_unsigned s')
      else read_unsigned s
  | EmptyString => None
  end.

End Format.

Module Script.
Import Stdlib.Strings.Ascii Stdlib.Strings.String.
Local Open Scope string_scope.

Definition nl : string := String (ascii_of_nat 10) EmptyString.

(** Standard output is threaded through the statements; an exception ends
    the run and leaves the output as it was. *)
Definition IO (X : Type) : Type := string -> result X * string.

Definition ret {X : Type} (x : X) : IO X := fun out => (Ok x, out).

Definition seq {X Y : Type} (m : IO X) (k : X -> IO Y) : IO Y :=
  fun out =>
    match m out with
    | (Ok x, out') => k x out'
    | (Raise e, out') => (Raise e, out')
    end.

Definition lift {X : Type} (r : result X) : IO X := fun out => (r, out).

(** [print(s)] *)
Definition print (s : string) : IO unit :=
  fun out => (Ok tt, out ++ s ++ nl).

(** [f"  ({point[0]:.2f}, {point[1]:.2f})"] *)
Definition point_text (point : float * float) : string :=
  "  (" ++ Format.format_f 2 (fst point) ++ ", "
        ++ Format.format_f 2 (snd point) ++ ")".

(** [for point in sample_data: print(...)] *)
Fixpoint print_points (sample_data : list (float * float)) : IO unit :=
  match sample_data with
  | [] => ret tt
  | point :: rest => seq (print (point_text point)) (fun _ => print_points rest)
  end.

(** [f"Calculated Circular Error Probable (CEP): {cep_value:.3f}"] *)
Definition cep_text (cep_value : float) : string :=
  "Calculated Circular Error Probable (CEP): " ++ Format.format_f 3 cep_value.

(** The statements that follow the computation. *)
Definition report (sample_data : list (float * float)) (cep_value : float) : IO unit :=
  seq (print "Sample Data Points:") (fun _ =>
  seq (print_points sample_data) (fun _ =>
  seq (print (nl ++ "-------------------------------------------")) (fun _ =>
  seq (print (cep_text cep_value)) (fun _ =>
  seq (print "-------------------------------------------") (fun _ =>
  seq (print (nl ++ "Interpretation:")) (fun _ =>
  seq (print "This means that approximately 50% of the data points are expected to fall") (fun _ =>
  seq (print "within a circle with a radius of this value, centered at the average") (fun _ =>
       print "location of the data points.")))))))).

(** The [__main__] block from the call of [calculate_cep] on, for any
    value of [sample_data]. *)
Definition main_on (sample_data : list (float * float)) : IO unit :=
  seq (lift (cep64 sample_data)) (fun cep_value => report sample_data cep_value).

Definition sample_data : list (float * float) :=
  [(0x1.3333333333333p+0, 0x1p-1); (-0x1.999999999999ap-1, -1);
   (0x1.0cccccccccccdp+1, 0x1.ccccccccccccdp+0);
   (0x1.3333333333333p-2, -0x1.4p+1);
   (-0x1.8p+0, 0x1.ccccccccccccdp-1); (0, 0); (-2, -0x1.8p+0);
   (0x1.8p+0, -0x1p-1); (-0x1.999999999999ap-4, 1);
   (0x1.999999999999ap-1, 2)]%float.

Definition main : IO unit := main_on sample_data.

End Script.

(** * Properties *)

(** ** What holds in every arithmetic *)

Section Generic.
Context {F : Type} {A : Arith F}.

Lemma calculate_cep_nil : calculate_cep (@nil (F * F)) = Raise IndexError.
Proof. reflexivity. Qed.

Lemma calculate_cep_cons (p : F * F) (s : list (F * F)) :
  calculate_cep (p :: s) =
  Ok (fmul cep_constant
        (fsqrt (fadd (square (Numpy.std (map fst (p :: s)) 1))
                     (square (Numpy.std (map snd (p :: s)) 1))))).
Proof. reflexivity. Qed.

(** On a list the routine is the routine on the array [np.array] makes of
    it. *)
Lemma calculate_cep_array (coordinates : list (F * F)) :
  calculate_cep coordinates = calculate_cep_ndarray (Numpy.array coordinates).
Proof. reflexivity. Qed.

(** The fuel given to the pairwise summation is enough: more changes
    nothing. *)
Lemma pairwise_sum_fuel (fuel : nat) : forall (l : list F) (fuel' : nat),
  (length l <= fuel)%nat -> (length l <= fuel')%nat ->
  Numpy.pairwise_sum fuel l = Numpy.pairwise_sum fuel' l.
Proof.
  induction fuel as [|fuel IH]; intros l fuel' Hl Hl'.
  - destruct l; [|simpl in Hl; lia].
    destruct fuel'; reflexivity.
  - destruct fuel' as [|fuel'].
    + destruct l; [reflexivity | simpl in Hl'; lia].
    + cbn [Numpy.pairwise_sum].
      destruct (Nat.ltb_spec 128 (length l)) as [Hbig|Hsmall]; [|reflexivity].
      set (n2 := (length l / 2 - (length l / 2) mod 8)%nat).
      assert (Hhalf : (length l / 2 < length l)%nat)
        by (apply Nat.div_lt; lia).
      assert (Hge : (64 <= length l / 2)%nat)
        by (apply Nat.div_le_lower_bound; lia).
      assert (Hmod : ((length l / 2) mod 8 < 8)%nat)
        by (apply Nat.mod_upper_bound; lia).
      assert (Hn2 : (0 < n2 < length l)%nat) by (unfold n2; lia).
      f_equal; apply IH;
        rewrite ?length_firstn, ?length_skipn; lia.
Qed.

End Generic.

(** ** Exact arithmetic *)

Section Exact.
Local Open Scope R_scope.

Lemma sigma_app (l l' : list R) :
  Spec.sigma (l ++ l') = Spec.sigma l + Spec.sigma l'.
Proof. induction l as [|a l IH]; simpl; [|rewrite IH]; ring. Qed.


Lemma fold_left_exact (l : list R) : forall acc : R,
  fold_left Rplus l acc = acc + Spec.sigma l.
Proof.
  induction l as [|a l IH]; intros acc; simpl.
  - ring.
  - rewrite IH. ring.
Qed.

Lemma unrolled8_exact (n : nat) : forall (l : list R) (r0 r1 r2 r3 r4 r5 r6 r7 : R),
  (length l <= n)%nat ->
  Numpy.unrolled8 (A := exact) r0 r1 r2 r3 r4 r5 r6 r7 l =
  r0 + r1 + r2 + r3 + r4 + r5 + r6 + r7 + Spec.sigma l.
Proof.
  induction n as [|n IH]; intros l r0 r1 r2 r3 r4 r5 r6 r7 Hl.
  - destruct l; [simpl; ring | simpl in Hl; lia].
  - destruct l as [|a0 [|a1 [|a2 [|a3 [|a4 [|a5 [|a6 [|a7 l']]]]]]]];
      try (cbn -[fold_left]; rewrite fold_left_exact; simpl; ring).
    cbn [Numpy.unrolled8]. rewrite IH by (simpl in Hl; lia).
    simpl. ring.
Qed.

Lemma block_sum_exact (l : list R) :
  Numpy.block_sum (A := exact) l = Spec.sigma l.
Proof.
  destruct l as [|a0 [|a1 [|a2 [|a3 [|a4 [|a5 [|a6 [|a7 l']]]]]]]];
    try (cbn -[fold_left]; rewrite fold_left_exact; simpl; ring).
  cbn [Numpy.block_sum]. rewrite (@unrolled8_exact (length l')) by lia.
  simpl. ring.
Qed.

Lemma pairwise_sum_exact (fuel : nat) : forall l : list R,
  Numpy.pairwise_sum (A := exact) fuel l = Spec.sigma l.
Proof.
  induction fuel as [|fuel IH]; intros l; cbn [Numpy.pairwise_sum].
  - apply block_sum_exact.
  - destruct (128 <? length l)%nat; [|apply block_sum_exact].
    rewrite !IH, <- sigma_app, firstn_skipn. reflexivity.
Qed.

(** In exact arithmetic NumPy's blocked pairwise summation is the sum. *)
Lemma sum_exact (l : list R) : Numpy.sum (A := exact) l = Spec.sigma l.
Proof. unfold Numpy.sum. rewrite pairwise_sum_exact. simpl. ring. Qed.

End Exact.

Section ExactStatistics.
Local Open Scope R_scope.

Lemma sigma_shift (d : R) (a : list R) :
  Spec.sigma (map (fun v => v + d) a) = Spec.sigma a + INR (length a) * d.
Proof.
  induction a as [|v a IH]; [simpl; ring|].
  change (length (v :: a)) with (S (length a)). rewrite S_INR.
  simpl. rewrite IH. ring.
Qed.

Lemma sigma_scale (k : R) (a : list R) :
  Spec.sigma (map (fun v => k * v) a) = k * Spec.sigma a.
Proof. induction a as [|v a IH]; simpl; [|rewrite IH]; ring. Qed.

Lemma sigma_zero (a : list R) :
  Forall (fun v => v = 0) a -> Spec.sigma a = 0.
Proof. induction 1 as [|v a Hv _ IH]; simpl; [|rewrite Hv, IH]; ring. Qed.

Lemma sigma_const (x : R) (a : list R) :
  Forall (fun v => v = x) a -> Spec.sigma a = INR (length a) * x.
Proof.
  induction 1 as [|v a Hv _ IH]; [simpl; ring|].
  change (length (v :: a)) with (S (length a)). rewrite S_INR.
  simpl. rewrite Hv, IH. ring.
Qed.

Lemma mean_exact (a : list R) :
  Numpy.mean (A := exact) a = Spec.sigma a / INR (length a).
Proof.
  unfold Numpy.mean. rewrite sum_exact. cbn. now rewrite <- INR_IZR_INZ.
Qed.

Lemma var_exact (a : list R) (ddof : Z) :
  Numpy.var (A := exact) a ddof =
  Spec.sigma (map (fun v => (v - Numpy.mean a) * (v - Numpy.mean a)) a)
  / IZR (Z.max (Z.of_nat (length a) - ddof) 0).
Proof.
  unfold Numpy.var. rewrite sum_exact, map_map. reflexivity.
Qed.



Lemma mean_shift (d : R) (a : list R) :
  a <> [] -> Numpy.mean (A := exact) (map (fun v => v + d) a) = Numpy.mean a + d.
Proof.
  intros Ha. rewrite !mean_exact, sigma_shift, length_map.
  assert (INR (length a) <> 0).
  { apply not_0_INR. destruct a; [congruence | discriminate]. }
  field. assumption.
Qed.

Lemma var_shift (d : R) (a : list R) (ddof : Z) :
  Numpy.var (A := exact) (map (fun v => v + d) a) ddof = Numpy.var a ddof.
Proof.
  destruct a as [|v0 a]; [reflexivity|].
  rewrite !var_exact, mean_shift by discriminate.
  rewrite length_map, map_map. f_equal. f_equal.
  apply map_ext. intros v. ring.
Qed.

Lemma mean_scale (k : R) (a : list R) :
  Numpy.mean (A := exact) (map (fun v => k * v) a) = k * Numpy.mean a.
Proof.
  rewrite !mean_exact, sigma_scale, length_map. unfold Rdiv. ring.
Qed.

Lemma var_scale (k : R) (a : list R) (ddof : Z) :
  Numpy.var (A := exact) (map (fun v => k * v) a) ddof = k * k * Numpy.var a ddof.
Proof.
  rewrite !var_exact, mean_scale, length_map, map_map.
  rewrite (map_ext (fun v => (k * v - k * Numpy.mean a) * (k * v - k * Numpy.mean a))
                   (fun v => (k * k) * ((v - Numpy.mean a) * (v - Numpy.mean a))))
    by (intros v; ring).
  rewrite <- (map_map (fun v => (v - Numpy.mean a) * (v - Numpy.mean a))
                      (fun q => k * k * q)).
  rewrite sigma_scale. unfold Rdiv. ring.
Qed.

Lemma std_scale (k : R) (a : list R) (ddof : Z) :
  0 <= k ->
  Numpy.std (A := exact) (map (fun v => k * v) a) ddof = k * Numpy.std a ddof.
Proof.
  intros Hk. unfold Numpy.std. rewrite var_scale. cbn.
  rewrite sqrt_mult_alt by nra. now rewrite sqrt_square.
Qed.

Lemma var_const (x : R) (a : list R) (ddof : Z) :
  a <> [] -> Forall (fun v => v = x) a -> Numpy.var (A := exact) a ddof = 0.
Proof.
  intros Ha Hx. rewrite var_exact, mean_exact, (sigma_const Hx).
  assert (INR (length a) <> 0).
  { apply not_0_INR. destruct a; [congruence | discriminate]. }
  replace (INR (length a) * x / INR (length a)) with x by (field; assumption).
  rewrite sigma_zero; [unfold Rdiv; ring|].
  rewrite Forall_map. eapply Forall_impl; [|exact Hx].
  intros v ->. ring.
Qed.

Lemma cep_constant_exact_nonneg : 0 <= cep_constant (A := exact).
Proof. apply sqrt_pos. Qed.

(** With [ddof = 1] and at least two items the divisor is N - 1, and
    [np.std] in exact arithmetic is the standard deviation of the
    specification. *)
Lemma std_formula (v : list R) :
  (2 <= length v)%nat -> Numpy.std (A := exact) v 1 = Spec.std v.
Proof.
  intros Hn. unfold Numpy.std, Spec.std. cbn [fsqrt exact]. f_equal.
  rewrite var_exact. unfold Spec.mean. rewrite <- mean_exact.
  rewrite Z.max_l by lia.
  rewrite minus_IZR, <- INR_IZR_INZ.
  f_equal. f_equal. apply map_ext. intros x. ring.
Qed.

End ExactStatistics.

(** ** Double precision *)

Section Float64.
Local Open Scope float_scope.

(** *** NaN is absorbing *)

Lemma SFcompare_refl_finite (s : bool) (m : positive) (e : Z) :
  SFcompare (S754_finite s m e) (S754_finite s m e) = Some Eq.
Proof.
  unfold SFcompare. rewrite Z.compare_refl, Pos.compare_cont_refl.
  now destruct s.
Qed.

Lemma is_nan_spec (x : float) : is_nan x = true <-> Prim2SF x = S754_nan.
Proof.
  unfold is_nan. rewrite eqb_spec. unfold SFeqb.
  destruct (Prim2SF x) as [s|s| |s m e].
  - simpl. split; discriminate.
  - destruct s; simpl; split; discriminate.
  - simpl. split; reflexivity.
  - rewrite SFcompare_refl_finite. simpl. split; discriminate.
Qed.

Lemma nan_add_l (x y : float) : is_nan x = true -> is_nan (x + y) = true.
Proof.
  rewrite !is_nan_spec, add_spec. intros ->. reflexivity.
Qed.

Lemma nan_add_r (x y : float) : is_nan y = true -> is_nan (x + y) = true.
Proof.
  rewrite !is_nan_spec, add_spec. intros ->. now destruct (Prim2SF x).
Qed.

Lemma nan_sub_r (x y : float) : is_nan y = true -> is_nan (x - y) = true.
Proof.
  rewrite !is_nan_spec, sub_spec. intros ->. now destruct (Prim2SF x).
Qed.

Lemma nan_mul_l (x y : float) : is_nan x = true -> is_nan (x * y) = true.
Proof.
  rewrite !is_nan_spec, mul_spec. intros ->. reflexivity.
Qed.

Lemma nan_mul_r (x y : float) : is_nan y = true -> is_nan (x * y) = true.
Proof.
  rewrite !is_nan_spec, mul_spec. intros ->. now destruct (Prim2SF x).
Qed.

Lemma nan_div_l (x y : float) : is_nan x = true -> is_nan (x / y) = true.
Proof.
  rewrite !is_nan_spec, div_spec. intros ->. reflexivity.
Qed.

Lemma nan_sqrt (x : float) : is_nan x = true -> is_nan (PrimFloat.sqrt x) = true.
Proof.
  rewrite !is_nan_spec, sqrt_spec. intros ->. reflexivity.
Qed.

Create HintDb nan discriminated.
#[local] Hint Resolve nan_add_l nan_add_r nan_sub_r nan_mul_l nan_mul_r
  nan_div_l nan_sqrt : nan.

(** *** A NaN among the items makes the sum NaN *)

Lemma fold_left_nan_acc (l : list float) : forall acc : float,
  is_nan acc = true -> is_nan (fold_left PrimFloat.add l acc) = true.
Proof.
  induction l as [|a l IH]; intros acc Hacc; simpl; [assumption|].
  apply IH. now apply nan_add_l.
Qed.

Lemma fold_left_nan (l : list float) : forall acc : float,
  some_nan l -> is_nan (fold_left PrimFloat.add l acc) = true.
Proof.
  induction l as [|a l IH]; intros acc H; inversion H; subst; simpl.
  - apply fold_left_nan_acc. now apply nan_add_r.
  - now apply IH.
Qed.

Ltac split_exists :=
  repeat match goal with
         | H : some_nan _ |- _ => unfold some_nan in H
         | H : Exists _ (_ :: _) |- _ => apply Exists_cons in H; destruct H as [H|H]
         | H : Exists _ [] |- _ => inversion H
         end.

Ltac nan_auto :=
  unfold some_nan; repeat rewrite Exists_cons; auto 14 with nan.

Lemma unrolled8_nan (n : nat) : forall (l : list float) (r0 r1 r2 r3 r4 r5 r6 r7 : float),
  (length l <= n)%nat ->
  some_nan (r0 :: r1 :: r2 :: r3 :: r4 :: r5 :: r6 :: r7 :: l) ->
  is_nan (Numpy.unrolled8 r0 r1 r2 r3 r4 r5 r6 r7 l) = true.
Proof.
  induction n as [|n IH]; intros l r0 r1 r2 r3 r4 r5 r6 r7 Hl H.
  - destruct l; [|simpl in Hl; lia].
    split_exists; cbn [Numpy.unrolled8 fold_left fadd float64]; nan_auto.
  - destruct l as [|a0 [|a1 [|a2 [|a3 [|a4 [|a5 [|a6 [|a7 l']]]]]]]];
      try solve [split_exists; cbn [Numpy.unrolled8 fold_left fadd float64]; nan_auto].
    cbn [Numpy.unrolled8 fadd float64].
    apply IH; [simpl in Hl; lia|].
    split_exists; nan_auto.
Qed.

Lemma block_sum_nan (l : list float) :
  some_nan l -> is_nan (Numpy.block_sum l) = true.
Proof.
  intros H.
  destruct l as [|a0 [|a1 [|a2 [|a3 [|a4 [|a5 [|a6 [|a7 l']]]]]]]];
    try (cbn [Numpy.block_sum fadd float64]; now apply fold_left_nan).
  cbn [Numpy.block_sum]. now apply (@unrolled8_nan (length l')).
Qed.

Lemma pairwise_sum_nan (fuel : nat) : forall l : list float,
  some_nan l -> is_nan (Numpy.pairwise_sum fuel l) = true.
Proof.
  induction fuel as [|fuel IH]; intros l H; cbn [Numpy.pairwise_sum].
  - now apply block_sum_nan.
  - destruct (128 <? length l)%nat; [|now apply block_sum_nan].
    set (n2 := (length l / 2 - (length l / 2) mod 8)%nat).
    unfold some_nan in H. rewrite <- (firstn_skipn n2 l), Exists_app in H.
    cbn [fadd float64].
    destruct H as [H|H]; [apply nan_add_l | apply nan_add_r]; now apply IH.
Qed.

Lemma sum_nan (l : list float) : some_nan l -> is_nan (Numpy.sum l) = true.
Proof.
  intros H. unfold Numpy.sum. cbn [fadd float64].
  apply nan_add_r. now apply pairwise_sum_nan.
Qed.

(** A NaN item makes the mean NaN, hence every deviation, and the standard
    deviation. *)
Lemma std_nan (a : list float) (ddof : Z) :
  some_nan a -> is_nan (Numpy.std a ddof) = true.
Proof.
  intros H. unfold Numpy.std, Numpy.var. cbn [fsqrt fdiv fsub fmul float64].
  apply nan_sqrt, nan_div_l, sum_nan.
  assert (Hm : is_nan (Numpy.mean a) = true).
  { unfold Numpy.mean. cbn [fdiv float64]. now apply nan_div_l, sum_nan. }
  unfold some_nan in *. rewrite !Exists_map.
  eapply Exists_impl; [|exact H].
  intros v _. cbv beta. now apply nan_mul_l, nan_sub_r.
Qed.

(** *** Signs *)

(** Rounding keeps the sign it is given. *)
Lemma binary_round_aux_sign (s : bool) (m e : Z) (l : location) :
  match binary_round_aux prec emax s m e l with
  | S754_zero s' | S754_infinity s' | S754_finite s' _ _ => s' = s
  | S754_nan => True
  end.
Proof.
  unfold binary_round_aux.
  destruct (shr_fexp prec emax m e l) as [mrs' e'].
  destruct (shr_fexp prec emax _ e' loc_Exact) as [mrs'' e''].
  destruct (shr_m mrs''); [reflexivity| |exact I].
  destruct (e'' <=? emax - prec)%Z; reflexivity.
Qed.

Lemma binary_round_aux_nonneg (m e : Z) (l : location) :
  sf_nonneg (binary_round_aux prec emax false m e l).
Proof.
  pose proof (binary_round_aux_sign false m e l) as H.
  destruct (binary_round_aux prec emax false m e l); simpl; auto.
Qed.

(** A square root is never negative. *)
Lemma sqrt_nonneg (x : spec_float) : sf_nonneg (SF64sqrt x).
Proof.
  destruct x as [s|[|]| |[|] m e]; simpl; auto.
  unfold SF64sqrt, SFsqrt.
  destruct (SFsqrt_core_binary prec emax (Z.pos m) e) as [[mz ez] lz].
  apply binary_round_aux_nonneg.
Qed.

(** Neither is its product with a positive finite number. *)
Lemma mul_pos_nonneg (m : positive) (e : Z) (y : spec_float) :
  sf_nonneg y -> sf_nonneg (SF64mul (S754_finite false m e) y).
Proof.
  destruct y as [s|s| |s my ey]; simpl; auto.
  intros ->. apply binary_round_aux_nonneg.
Qed.

Lemma cep_constant_positive :
  exists (m : positive) (e : Z),
    Prim2SF (cep_constant (A := float64)) = S754_finite false m e.
Proof. do 2 eexists. vm_compute. reflexivity. Qed.

Lemma sf_nonneg_leb (x : float) :
  sf_nonneg (Prim2SF x) -> is_nan x = true \/ nonnegative x = true.
Proof.
  intros H. unfold nonnegative. rewrite is_nan_spec, leb_spec.
  change (Prim2SF 0) with (S754_zero false).
  destruct (Prim2SF x) as [s|s| |s m e]; simpl in H; subst; auto.
Qed.

(** *** Division by one, and a sample of one item *)

Lemma div_eucl_mul (a b : Z) : (0 < b)%Z -> Z.div_eucl (a * b) b = (a, 0%Z).
Proof.
  intros Hb.
  generalize (Z.div_mul a b ltac:(lia)), (Z.mod_mul a b ltac:(lia)).
  unfold Z.div, Z.modulo. destruct (Z.div_eucl (a * b) b) as [q r]. simpl.
  now intros -> ->.
Qed.

Lemma SFdiv_one (s : bool) (m : positive) (e : Z) :
  SpecFloat.bounded prec emax m e = true ->
  SF64div (S754_finite s m e) (S754_finite false 4503599627370496 (-52)) =
  S754_finite s m e.
Proof.
  intros Hb. unfold SpecFloat.bounded, canonical_mantissa in Hb.
  apply andb_prop in Hb as [Hc He].
  apply Z.eqb_eq in Hc. apply Z.leb_le in He.
  unfold fexp, SpecFloat.emin in Hc.
  change prec with 53%Z in *. change emax with 1024%Z in *.
  unfold SF64div, SFdiv, SFdiv_core_binary.
  change (Zdigits2 (Z.pos 4503599627370496)) with 53%Z.
  cbn [Zdigits2].
  unfold fexp, SpecFloat.emin.
  change prec with 53%Z in *. change emax with 1024%Z in *.
  set (d := Z.pos (digits2_pos m)) in *.
  assert (Hd : (0 < d)%Z) by (unfold d; lia).
  assert (Hcase : (d = 53 /\ -1074 < e \/ e = -1074 /\ d <= 53)%Z) by lia.
  destruct Hcase as [[Hd53 Hlt]|[He1 Hle]].
  - replace (IntDef.Z.min (IntDef.Z.max (d + e - (53 + -52) - 53) (3 - 1024 - 53))
            (e - -52)) with (e - 1)%Z by lia.
    replace (e - -52 - (e - 1))%Z with 53%Z by lia.
    cbv iota.
    rewrite Z.shiftl_mul_pow2 by lia.
    replace (Z.pos m * 2 ^ 53)%Z with (Z.pos m~0 * 4503599627370496)%Z by lia.
    rewrite div_eucl_mul by lia.
    change (new_location 4503599627370496 0) with loc_Exact.
    unfold binary_round_aux, shr_fexp. cbn [Zdigits2 digits2_pos].
    rewrite Pos2Z.inj_succ. fold d.
    unfold fexp, SpecFloat.emin.
    replace (IntDef.Z.max (Z.succ d + (e - 1) - 53) (3 - 1024 - 53) - (e - 1))%Z
      with 1%Z by lia.
    cbn [shr shr_record_of_loc SpecFloat.iter_pos shr_1 orb shr_m loc_of_shr_record
         round_nearest_even Zdigits2].
    fold d.
    replace (e - 1 + 1)%Z with e by lia.
    replace (IntDef.Z.max (d + e - 53) (3 - 1024 - 53) - e)%Z with 0%Z by lia.
    cbn [shr shr_record_of_loc shr_m].
    rewrite xorb_false_r.
    destruct (Z.leb_spec e (1024 - 53)); [reflexivity | lia].
  - replace (IntDef.Z.min (IntDef.Z.max (d + e - (53 + -52) - 53) (3 - 1024 - 53))
            (e - -52)) with e by lia.
    replace (e - -52 - e)%Z with 52%Z by lia.
    cbv iota.
    rewrite Z.shiftl_mul_pow2 by lia.
    change (2 ^ 52)%Z with 4503599627370496%Z.
    rewrite div_eucl_mul by lia.
    change (new_location 4503599627370496 0) with loc_Exact.
    unfold binary_round_aux, shr_fexp. cbn [Zdigits2 digits2_pos].
    fold d.
    unfold fexp, SpecFloat.emin.
    replace (IntDef.Z.max (d + e - 53) (3 - 1024 - 53) - e)%Z with 0%Z by lia.
    cbn [shr shr_record_of_loc SpecFloat.iter_pos shr_1 orb shr_m loc_of_shr_record
         round_nearest_even Zdigits2].
    fold d.
    replace (IntDef.Z.max (d + e - 53) (3 - 1024 - 53) - e)%Z with 0%Z by lia.
    cbn [shr shr_record_of_loc shr_m].
    rewrite xorb_false_r.
    destruct (Z.leb_spec e (1024 - 53)); [reflexivity | lia].
Qed.

Lemma SFsub_diag (s : bool) (m : positive) (e : Z) :
  SF64sub (S754_finite s m e) (S754_finite s m e) = S754_zero false.
Proof.
  unfold SF64sub, SFsub. now rewrite Z.sub_diag.
Qed.

Lemma one_SF : Prim2SF (float_of_int 1) = S754_finite false 4503599627370496 (-52).
Proof. reflexivity. Qed.

Lemma zero_SF : Prim2SF 0 = S754_zero false.
Proof. reflexivity. Qed.

(** The deviation of the only item from the mean of a sample of one: the
    mean is the item itself (or infinite, or NaN), so the deviation is a
    zero or NaN. *)
Lemma deviation_single (x : float) :
  sf_zero_or_nan (Prim2SF (x - (0 + (0 + x)) / float_of_int 1)).
Proof.
  rewrite sub_spec, div_spec, !add_spec, one_SF, zero_SF.
  pose proof (Prim2SF_valid x) as Hv.
  destruct (Prim2SF x) as [s|s| |s m e].
  - destruct s; exact I.
  - destruct s; exact I.
  - exact I.
  - cbn [SF64add SFadd]. rewrite SFdiv_one by exact Hv.
    rewrite SFsub_diag. exact I.
Qed.

Lemma zero_or_nan_square (d : float) :
  sf_zero_or_nan (Prim2SF d) -> sf_zero_or_nan (Prim2SF (d * d)).
Proof.
  rewrite mul_spec.
  destruct (Prim2SF d); intros H; try contradiction; exact I.
Qed.

Lemma zero_or_nan_add_zero (q : float) :
  sf_zero_or_nan (Prim2SF q) -> sf_zero_or_nan (Prim2SF (0 + q)).
Proof.
  rewrite add_spec, zero_SF.
  destruct (Prim2SF q) as [[|]| | |]; intros H; try contradiction; exact I.
Qed.

Lemma zero_or_nan_div_zero (t : float) :
  sf_zero_or_nan (Prim2SF t) -> is_nan (t / float_of_int 0) = true.
Proof.
  rewrite is_nan_spec, div_spec. change (Prim2SF (float_of_int 0)) with (S754_zero false).
  destruct (Prim2SF t); intros H; try contradiction; reflexivity.
Qed.

(** With one item and [ddof = 1] the sum of squares is 0 or NaN and the
    divisor is 0: the standard deviation is NaN. *)
Lemma std_single_nan (x : float) : is_nan (Numpy.std [x] 1) = true.
Proof.
  unfold Numpy.std. cbn [fsqrt float64]. apply nan_sqrt.
  unfold Numpy.var, Numpy.mean, Numpy.sum.
  cbn [length map Numpy.pairwise_sum Nat.ltb Nat.leb Numpy.block_sum fold_left
       fadd fsub fmul fdiv fzero of_int float64 Z.of_nat Pos.of_succ_nat].
  change (Z.max (1 - 1) 0) with 0%Z.
  apply zero_or_nan_div_zero.
  do 2 apply zero_or_nan_add_zero.
  apply zero_or_nan_square, deviation_single.
Qed.

(** *** Two items in either order *)

Lemma SFadd_comm (x y : spec_float) : SF64add x y = SF64add y x.
Proof.
  destruct x as [sx|sx| |sx mx ex], y as [sy|sy| |sy my ey];
    try reflexivity; try (destruct sx, sy; reflexivity).
  unfold SF64add, SFadd.
  rewrite (Z.min_comm ex ey).
  rewrite (Z.add_comm (cond_Zopp sx _)).
  reflexivity.
Qed.




End Float64.

(** ** The store *)

Section StoreFacts.
Context {F : Type} {A : Arith F} {E : Exceptions F}.

Lemma nth_error_end (h : Store.heap F) (o : Store.object F) :
  nth_error (h ++ [o]) (length h) = Some o.
Proof. rewrite nth_error_app2, Nat.sub_diag by lia. reflexivity. Qed.

Lemma replace_end (h : Store.heap F) (o o' : Store.object F) :
  Store.replace (length h) o' (h ++ [o]) = h ++ [o'].
Proof. induction h as [|x h IH]; simpl; [|rewrite IH]; reflexivity. Qed.

Lemma nth_error_old (h : Store.heap F) (o o' : Store.object F) (l : Store.loc) :
  nth_error h l = Some o -> nth_error (h ++ [o']) l = Some o.
Proof.
  intros H. rewrite nth_error_app1; [assumption|].
  apply nth_error_Some. congruence.
Qed.

Lemma mbind_ok (X Y : Type) (m : Store.M F X) (k : X -> Store.M F Y)
      (s s' : Store.state F) (x : X) :
  m s = (Ok x, s') -> Store.mbind m k s = k x s'.
Proof. unfold Store.mbind. now intros ->. Qed.

Lemma mbind_raise (X Y : Type) (m : Store.M F X) (k : X -> Store.M F Y)
      (s s' : Store.state F) (e : exn) :
  m s = (Raise e, s') -> Store.mbind m k s = (Raise e, s').
Proof. unfold Store.mbind. now intros ->. Qed.

Lemma load_run (s : Store.state F) (l : Store.loc) (o : Store.object F) :
  nth_error (Store.objects s) l = Some o -> Store.load l s = (Ok o, s).
Proof. unfold Store.load. now intros ->. Qed.

(** [np.array] leaves its argument alone and puts the array in a new
    object; it issues no warning. *)
Lemma np_array_run (h : Store.heap F) (w : list Store.warning) (l : Store.loc)
      (items : list (F * F)) :
  nth_error h l = Some (Store.PyList items) ->
  Store.np_array l (Store.State h w) =
  (Ok (length h), Store.State (h ++ [Store.NdArray (Numpy.array items)]) w).
Proof.
  intros Hl. unfold Store.np_array.
  erewrite mbind_ok by (apply load_run; exact Hl). reflexivity.
Qed.

Lemma np_array_run_ndarray (h : Store.heap F) (w : list Store.warning)
      (l : Store.loc) (a : Numpy.ndarray F) :
  nth_error h l = Some (Store.NdArray a) ->
  Store.np_array l (Store.State h w) =
  (Ok (length h), Store.State (h ++ [Store.NdArray a]) w).
Proof.
  intros Hl. unfold Store.np_array.
  erewrite mbind_ok by (apply load_run; exact Hl). reflexivity.
Qed.

(** Taking a view creates no array. *)
Lemma getitem_column_run (s : Store.state F) (d : Store.loc) (k : nat)
      (a : Numpy.ndarray F) :
  nth_error (Store.objects s) d = Some (Store.NdArray a) ->
  Store.getitem_column d k s =
  (match Numpy.column a k with
   | Ok _ => Ok (Store.View d k)
   | Raise e => Raise e
   end, s).
Proof.
  intros Hd. unfold Store.getitem_column.
  erewrite mbind_ok by (apply load_run; exact Hd).
  unfold Store.mbind, Store.lift, Store.ret.
  now destruct (Numpy.column a k).
Qed.

(** [np.std] on a view of a live array: the value of [Numpy.std] on the
    column, one new object, the array of squared deviations, and the
    warnings of [Store.std_warnings]. *)
Lemma np_std_run (h : Store.heap F) (w : list Store.warning) (d : Store.loc)
      (k : nat) (a : Numpy.ndarray F) (arr : list F) (ddof : Z) :
  nth_error h d = Some (Store.NdArray a) ->
  Numpy.column a k = Ok arr ->
  Store.np_std (Store.View d k) ddof (Store.State h w) =
  (Ok (Numpy.std arr ddof),
   Store.State
     (h ++ [Store.NdArray
              (Numpy.Arr1 (map (fun v => fmul v v)
                               (map (fun v => fsub v (Numpy.mean arr)) arr)))])
     (w ++ Store.std_warnings arr ddof)).
Proof.
  intros Hd Hcol.
  unfold Store.np_std, Store.read_view, Store.multiply_inplace, Store.read1,
    Store.store, Store.ret, Store.lift, Store.alloc, Store.fperr, Store.warn,
    Store.std_warnings.
  cbv beta iota delta [Store.mbind Store.load Store.base Store.col
                       Store.objects Store.warned].
  rewrite Hd. cbv beta iota. rewrite Hcol. cbv beta iota.
  destruct (Z.of_nat (length arr) <=? ddof)%Z;
    cbv beta iota delta [Store.objects Store.warned];
    rewrite nth_error_end; cbv beta iota;
    rewrite replace_end, nth_error_end; cbv beta iota;
    rewrite <- ?app_assoc; reflexivity.
Qed.

(** A run of the routine on an array [data] that is already in the heap:
    the value is the one of [calculate_cep_ndarray], the objects before the
    run are followed by those the run created, and the warnings before the
    run by those of [Store.routine_warnings]. *)
Lemma statements_run (h : Store.heap F) (w : list Store.warning)
      (data : Store.loc) (a : Numpy.ndarray F) :
  nth_error h data = Some (Store.NdArray a) ->
  exists (fresh : Store.heap F) (issued : list Store.warning),
    Store.statements data (Store.State h w) =
    (calculate_cep_ndarray a, Store.State (h ++ fresh) (w ++ issued)) /\
    match Numpy.column a 0, Numpy.column a 1 with
    | Ok col0, Ok col1 => issued = Store.routine_warnings col0 col1
    | _, _ => issued = []
    end.
Proof.
  intros Hdata. unfold calculate_cep_ndarray, Store.statements.
  destruct (Numpy.column a 0) as [col0|e] eqn:H0.
  2:{ exists [], []. split; [|reflexivity].
      erewrite mbind_raise
        by (erewrite getitem_column_run by exact Hdata; rewrite H0; reflexivity).
      now rewrite !app_nil_r. }
  erewrite mbind_ok
    by (erewrite getitem_column_run by exact Hdata; rewrite H0; reflexivity).
  erewrite mbind_ok by (eapply np_std_run; [exact Hdata | exact H0]).
  set (h2 := h ++ _).
  assert (Hdata2 : nth_error h2 data = Some (Store.NdArray a))
    by (apply nth_error_old; exact Hdata).
  destruct (Numpy.column a 1) as [col1|e] eqn:H1.
  2:{ destruct a as [items|rows]; simpl in H0, H1; discriminate. }
  erewrite mbind_ok
    by (erewrite getitem_column_run by exact Hdata2; rewrite H1; reflexivity).
  erewrite mbind_ok by (eapply np_std_run; [exact Hdata2 | exact H1]).
  cbn [bind].
  unfold Store.mbind, Store.fperr, Store.ret.
  cbv beta iota delta [Store.objects Store.warned].
  unfold h2. rewrite <- !app_assoc.
  eexists. eexists. split; reflexivity.
Qed.

(** A run of the routine on a heap holding the caller's list at
    [coordinates]. *)
Lemma calculate_cep_run (h : Store.heap F) (w : list Store.warning)
      (coordinates : Store.loc) (items : list (F * F)) :
  nth_error h coordinates = Some (Store.PyList items) ->
  exists (fresh : Store.heap F) (issued : list Store.warning),
    Store.calculate_cep coordinates (Store.State h w) =
    (calculate_cep items, Store.State (h ++ fresh) (w ++ issued)) /\
    match items with
    | [] => issued = []
    | _ :: _ => issued = Store.routine_warnings (map fst items) (map snd items)
    end.
Proof.
  intros Hl. unfold Store.calculate_cep.
  erewrite mbind_ok by (apply np_array_run; exact Hl).
  destruct (@statements_run (h ++ [Store.NdArray (Numpy.array items)]) w (length h)
              (Numpy.array items)) as (fresh & issued & Hrun & Hw);
    [apply nth_error_end|].
  rewrite Hrun. exists (Store.NdArray (Numpy.array items) :: fresh), issued.
  split.
  - rewrite <- app_assoc. destruct items; reflexivity.
  - destruct items; exact Hw.
Qed.

(** The same on an argument that is an array. *)
Lemma calculate_cep_run_ndarray (h : Store.heap F) (w : list Store.warning)
      (coordinates : Store.loc) (a : Numpy.ndarray F) :
  nth_error h coordinates = Some (Store.NdArray a) ->
  exists (fresh : Store.heap F) (issued : list Store.warning),
    Store.calculate_cep coordinates (Store.State h w) =
    (calculate_cep_ndarray a, Store.State (h ++ fresh) (w ++ issued)) /\
    match Numpy.column a 0, Numpy.column a 1 with
    | Ok col0, Ok col1 => issued = Store.routine_warnings col0 col1
    | _, _ => issued = []
    end.
Proof.
  intros Hl. unfold Store.calculate_cep.
  erewrite mbind_ok by (apply np_array_run_ndarray; exact Hl).
  destruct (@statements_run (h ++ [Store.NdArray a]) w (length h) a)
    as (fresh & issued & Hrun & Hw); [apply nth_error_end|].
  rewrite Hrun. exists (Store.NdArray a :: fresh), issued.
  split; [now rewrite <- app_assoc | exact Hw].
Qed.

End StoreFacts.

(** ** The routine in exact arithmetic *)

Section ExactRoutine.
Local Open Scope R_scope.


Lemma map_fst_translate (dx dy : R) (s : list (R * R)) :
  map fst (map (translate dx dy) s) = map (fun v => v + dx) (map fst s).
Proof. rewrite !map_map. reflexivity. Qed.

Lemma map_snd_translate (dx dy : R) (s : list (R * R)) :
  map snd (map (translate dx dy) s) = map (fun v => v + dy) (map snd s).
Proof. rewrite !map_map. reflexivity. Qed.

Lemma cepR_translate (dx dy : R) (s : list (R * R)) :
  cepR (map (translate dx dy) s) = cepR s.
Proof.
  unfold cepR. destruct s as [|p s]; [reflexivity|].
  rewrite map_cons, !calculate_cep_cons, <- map_cons.
  unfold Numpy.std.
  rewrite map_fst_translate, map_snd_translate, !var_shift.
  reflexivity.
Qed.

Lemma map_fst_scale (k : R) (s : list (R * R)) :
  map fst (map (scale k) s) = map (fun v => k * v) (map fst s).
Proof. rewrite !map_map. reflexivity. Qed.

Lemma map_snd_scale (k : R) (s : list (R * R)) :
  map snd (map (scale k) s) = map (fun v => k * v) (map snd s).
Proof. rewrite !map_map. reflexivity. Qed.

Lemma cepR_scale (k : R) (s : list (R * R)) :
  0 <= k -> cepR (map (scale k) s) = times k (cepR s).
Proof.
  intros Hk. unfold cepR. destruct s as [|p s]; [reflexivity|].
  rewrite map_cons, !calculate_cep_cons, <- map_cons.
  rewrite map_fst_scale, map_snd_scale, !std_scale by assumption.
  unfold times, bind, square. cbn [fmul fadd fsqrt exact]. f_equal.
  set (sx := Numpy.std (map fst (p :: s)) 1).
  set (sy := Numpy.std (map snd (p :: s)) 1).
  replace (k * sx * (k * sx) + k * sy * (k * sy))
    with (k * k * (sx * sx + sy * sy)) by ring.
  rewrite sqrt_mult_alt by nra. rewrite sqrt_square by assumption.
  ring.
Qed.

Lemma cepR_identical (p : R * R) (s : list (R * R)) :
  s <> [] -> Forall (fun q => q = p) s -> cepR s = Ok 0.
Proof.
  intros Hs Hp. unfold cepR. destruct s as [|q s]; [congruence|].
  rewrite calculate_cep_cons. unfold Numpy.std.
  rewrite (@var_const (fst p)), (@var_const (snd p)).
  - unfold square. cbn [fmul fadd fsqrt exact].
    rewrite sqrt_0, Rmult_0_l, Rplus_0_l, sqrt_0, Rmult_0_r. reflexivity.
  - discriminate.
  - rewrite Forall_map. eapply Forall_impl; [|exact Hp]. now intros ? ->.
  - discriminate.
  - rewrite Forall_map. eapply Forall_impl; [|exact Hp]. now intros ? ->.
Qed.

Lemma cepR_nonneg (s : list (R * R)) (v : R) :
  cepR s = Ok v -> 0 <= v.
Proof.
  unfold cepR. destruct s as [|p s]; [discriminate|].
  rewrite calculate_cep_cons. set (w := fmul cep_constant _). intros H.
  assert (Hv : v = w) by congruence. rewrite Hv. unfold w.
  cbn [fmul exact]. apply Rmult_le_pos; [apply cep_constant_exact_nonneg|].
  cbn [fsqrt exact]. apply sqrt_pos.
Qed.

Lemma cross_exact :
  cepR [(1, 0); (-1, 0); (0, 1); (0, -1)] =
  Ok (R_sqrt.sqrt (-2 * ln (1 / 2)) * R_sqrt.sqrt (2 / 3 + 2 / 3)).
Proof.
  unfold cepR. rewrite calculate_cep_cons. unfold Numpy.std, square.
  cbn [map fst snd fmul fadd fsqrt exact].
  assert (Hx : Numpy.var (A := exact) [1; -1; 0; 0] 1 = 2 / 3).
  { rewrite var_exact, mean_exact. simpl. change (Z.max 3 0) with 3%Z. field. }
  assert (Hy : Numpy.var (A := exact) [0; 0; 1; -1] 1 = 2 / 3).
  { rewrite var_exact, mean_exact. simpl. change (Z.max 3 0) with 3%Z. field. }
  rewrite Hx, Hy, sqrt_sqrt by lra. reflexivity.
Qed.

(** *** The value on the symmetric sample *)

Lemma exp_square_bound (t a b : R) :
  0 <= b -> b <= exp t -> a <= b * b -> a <= exp (2 * t).
Proof.
  intros Hb Hbt Hab. replace (2 * t) with (t + t) by ring.
  rewrite exp_plus. nra.
Qed.

(** One squaring: from [b <= exp t] to [q <= exp (2 t)], [q] being a
    rational below the square of [b]. *)
Ltac square_step H q :=
  match type of H with
  | ?b <= exp ?t =>
      let H' := fresh in
      assert (H' : q <= exp (2 * t))
        by (apply (@exp_square_bound t q b); [lra | exact H | lra]);
      clear H; rename H' into H
  end.

(** exp x is at least (1 + x/4096)^4096; the power is bounded from below by
    twelve squarings, each rounded down to fifteen decimals. *)
Lemma exp_above_2 : 2 < exp (6936 / 10000).
Proof.
  pose proof (exp_ineq1_le (6936 / 10000 / 4096)) as H.
  square_step H (1000338700549659 / 1000000000000000).
  square_step H (1000677515817380 / 1000000000000000).
  square_step H (1001355490662442 / 1000000000000000).
  square_step H (1002712818679819 / 1000000000000000).
  square_step H (1005432996744827 / 1000000000000000).
  square_step H (1010895510943283 / 1000000000000000).
  square_step H (1021909734045281 / 1000000000000000).
  square_step H (1044299504536496 / 1000000000000000).
  square_step H (1090561455175171 / 1000000000000000).
  square_step H (1189324287513786 / 1000000000000000).
  square_step H (1414492260870174 / 1000000000000000).
  square_step H (2000788356061616 / 1000000000000000).
  replace (2 * (2 * (2 * (2 * (2 * (2 * (2 * (2 * (2 * (2 * (2 * (2 *
             (6936 / 10000 / 4096)))))))))))))
    with (6936 / 10000) in H by field.
  lra.
Qed.

Lemma exp_above_half : 1 / 2 < exp (- (6928 / 10000)).
Proof.
  pose proof (exp_ineq1_le (- (6928 / 10000) / 4096)) as H.
  square_step H (999661747358551 / 1000000000000000).
  square_step H (999323609131951 / 1000000000000000).
  square_step H (998647675768508 / 1000000000000000).
  square_step H (997297180317843 / 1000000000000000).
  square_step H (994601665869920 / 1000000000000000).
  square_step H (989232473751219 / 1000000000000000).
  square_step H (978580887123956 / 1000000000000000).
  square_step H (957620552644308 / 1000000000000000).
  square_step H (917037122846789 / 1000000000000000).
  square_step H (840957084679116 / 1000000000000000).
  square_step H (707208818271997 / 1000000000000000).
  square_step H (500144312641674 / 1000000000000000).
  replace (2 * (2 * (2 * (2 * (2 * (2 * (2 * (2 * (2 * (2 * (2 * (2 *
             (- (6928 / 10000) / 4096)))))))))))))
    with (- (6928 / 10000)) in H by field.
  lra.
Qed.

(** 0.6928 < ln 2 < 0.6936 *)
Lemma ln_half_bounds : - (6936 / 10000) < ln (1 / 2) < - (6928 / 10000).
Proof.
  split.
  - rewrite <- (ln_exp (- (6936 / 10000))).
    apply ln_increasing; [apply exp_pos|].
    rewrite exp_Ropp.
    pose proof exp_above_2 as H.
    apply Rinv_lt_contravar in H; [lra|].
    apply Rmult_lt_0_compat; [lra | apply exp_pos].
  - rewrite <- (ln_exp (- (6928 / 10000))).
    apply ln_increasing; [lra | apply exp_above_half].
Qed.

Lemma cross_exact_value :
  Rabs (R_sqrt.sqrt (-2 * ln (1 / 2)) * R_sqrt.sqrt (2 / 3 + 2 / 3) - 13596 / 10000)
  < 5 / 10000.
Proof.
  pose proof ln_half_bounds as [Hlo Hhi].
  rewrite <- sqrt_mult by lra.
  set (z := -2 * ln (1 / 2) * (2 / 3 + 2 / 3)).
  assert (Hz : 13591 / 10000 * (13591 / 10000) < z < 13601 / 10000 * (13601 / 10000))
    by (unfold z; lra).
  assert (H1 : 13591 / 10000 < R_sqrt.sqrt z).
  { rewrite <- (sqrt_square (13591 / 10000)) by lra.
    apply sqrt_lt_1_alt. lra. }
  assert (H2 : R_sqrt.sqrt z < 13601 / 10000).
  { rewrite <- (sqrt_square (13601 / 10000)) by lra.
    apply sqrt_lt_1_alt. lra. }
  apply Rabs_def1; lra.
Qed.

End ExactRoutine.

(** ** The routine in double precision *)

Section Float64Routine.
Local Open Scope float_scope.

Lemma result_eqb_refl (r : result float) : result_eqb r r = true.
Proof.
  destruct r as [v|[|]]; simpl; auto.
  now apply FloatAxioms.Leibniz.eqb_spec.
Qed.

Lemma result_neq (r r' : result float) : result_eqb r r' = false -> r <> r'.
Proof. intros Hf ->. rewrite result_eqb_refl in Hf. discriminate. Qed.

(** A nonempty sample gives a value, whatever its coordinates. *)
Lemma cep64_value (s : list (float * float)) :
  s <> [] -> exists v, cep64 s = Ok v.
Proof.
  destruct s as [|p s]; [congruence|]. intros _.
  unfold cep64. rewrite calculate_cep_cons. eauto.
Qed.

Lemma cep64_nonneg (s : list (float * float)) (v : float) :
  cep64 s = Ok v -> is_nan v = true \/ nonnegative v = true.
Proof.
  unfold cep64. destruct s as [|p s]; [discriminate|].
  rewrite calculate_cep_cons. set (w := fmul cep_constant _). intros H.
  assert (Hv : v = w) by congruence. rewrite Hv. unfold w.
  apply sf_nonneg_leb. cbn [fmul fsqrt float64].
  destruct cep_constant_positive as (m & e & Hc).
  rewrite mul_spec, Hc, sqrt_spec.
  apply mul_pos_nonneg, sqrt_nonneg.
Qed.

Lemma cep64_nan (s : list (float * float)) :
  Exists (fun p => is_nan (fst p) = true \/ is_nan (snd p) = true) s ->
  exists v, cep64 s = Ok v /\ is_nan v = true.
Proof.
  intros H. unfold cep64.
  destruct s as [|p s]; [inversion H|].
  rewrite calculate_cep_cons. eexists. split; [reflexivity|].
  cbn [fmul fsqrt fadd float64]. apply nan_mul_r, nan_sqrt. unfold square.
  cbn [fmul float64].
  assert (Hxy : some_nan (map fst (p :: s)) \/ some_nan (map snd (p :: s))).
  { unfold some_nan. rewrite !Exists_map.
    apply Exists_exists in H as (q & Hq & [Hn|Hn]); [left|right];
      apply Exists_exists; eauto. }
  destruct Hxy as [Hx|Hy].
  - apply nan_add_l, nan_mul_l, std_nan, Hx.
  - apply nan_add_r, nan_mul_l, std_nan, Hy.
Qed.

Lemma cep64_single (p : float * float) :
  exists v, cep64 [p] = Ok v /\ is_nan v = true.
Proof.
  unfold cep64. rewrite calculate_cep_cons. eexists. split; [reflexivity|].
  cbn [fmul fsqrt fadd float64 map]. apply nan_mul_r, nan_sqrt, nan_add_l.
  unfold square. cbn [fmul float64]. apply nan_mul_l, std_single_nan.
Qed.


End Float64Routine.

(** * Examples *)

Section Examples.
Import Samples.
Local Open Scope float_scope.

(** The sample of the demonstration in the source file; its ten items take
    the blocked path of the summation. *)
Example demo_value :
  cep64 [(0x1.3333333333333p+0, 0x1p-1); (-0x1.999999999999ap-1, -1);
         (0x1.0cccccccccccdp+1, 0x1.ccccccccccccdp+0);
         (0x1.3333333333333p-2, -0x1.4p+1);
         (-0x1.8p+0, 0x1.ccccccccccccdp-1); (0, 0); (-2, -0x1.8p+0);
         (0x1.8p+0, -0x1p-1); (-0x1.999999999999ap-4, 1);
         (0x1.999999999999ap-1, 2)]
  = Ok 0x1.2718a6959dea5p+1.
Proof. vm_compute. reflexivity. Qed.

(** Where nothing rounds, the double-precision results do satisfy the
    identities of the specification. *)
Example translation_without_rounding :
  cep64 (map (translate 1 1) cross) = cep64 cross.
Proof. vm_compute. reflexivity. Qed.

Example scaling_without_rounding :
  cep64 (map (scale 2) cross) = times 2 (cep64 cross).
Proof. vm_compute. reflexivity. Qed.

(** Sixteen finite points can give NaN: two of the eight accumulators of the
    blocked sum overflow, one to +infinity and one to -infinity, and their
    sum is NaN. *)
Example finite_sample_nan :
  Forall (fun p => is_finite (fst p) = true /\ is_finite (snd p) = true)
         (sixteen 0x1.fffffffffffffp1023) /\
  cep64 (sixteen 0x1.fffffffffffffp1023) = Ok nan.
Proof. split; [repeat constructor | vm_compute; reflexivity]. Qed.

End Examples.

(** * Symmetries, edge cases and the script *)

Section ExactSymmetry.
Local Open Scope R_scope.

Lemma sigma_plus (X : Type) (g h : X -> R) (s : list X) :
  Spec.sigma (map g s) + Spec.sigma (map h s) =
  Spec.sigma (map (fun p => g p + h p) s).
Proof. induction s as [|p s IH]; simpl; [|rewrite <- IH]; ring. Qed.

Lemma sigma_linear (X : Type) (a b : R) (g h : X -> R) (s : list X) :
  Spec.sigma (map (fun p => a * g p + b * h p) s) =
  a * Spec.sigma (map g s) + b * Spec.sigma (map h s).
Proof. induction s as [|p s IH]; simpl; [|rewrite IH]; ring. Qed.

Lemma sigma_squares_nonneg (X : Type) (g : X -> R) (s : list X) :
  0 <= Spec.sigma (map (fun p => g p * g p) s).
Proof. induction s as [|p s IH]; simpl; [lra | nra]. Qed.

Lemma sigma_squares_zero (X : Type) (g : X -> R) (s : list X) :
  Spec.sigma (map (fun p => g p * g p) s) = 0 -> Forall (fun p => g p = 0) s.
Proof.
  induction s as [|p s IH]; simpl; intros H; constructor.
  - pose proof (sigma_squares_nonneg g s). nra.
  - apply IH. pose proof (sigma_squares_nonneg g s). nra.
Qed.

(** The variance of a column, as a sum over the points of the sample. *)
Lemma var_of_column (X : Type) (f : X -> R) (s : list X) (ddof : Z) :
  Numpy.var (A := exact) (map f s) ddof =
  Spec.sigma (map (fun p => (f p - Numpy.mean (map f s)) * (f p - Numpy.mean (map f s))) s)
  / IZR (Z.max (Z.of_nat (length s) - ddof) 0).
Proof. rewrite var_exact, map_map, length_map. reflexivity. Qed.

Lemma inv_max_nonneg (z : Z) : 0 <= / IZR (Z.max z 0).
Proof.
  destruct (Z.eq_dec (Z.max z 0) 0) as [->|Hz].
  - rewrite Rinv_0. lra.
  - left. apply Rinv_0_lt_compat, IZR_lt. lia.
Qed.

Lemma var_nonneg (a : list R) (ddof : Z) : 0 <= Numpy.var (A := exact) a ddof.
Proof.
  rewrite <- (map_id a), var_of_column.
  apply Rmult_le_pos; [|apply inv_max_nonneg].
  apply (sigma_squares_nonneg (fun p => p - Numpy.mean (map (fun x => x) a))).
Qed.

Lemma square_std (a : list R) (ddof : Z) :
  square (A := exact) (Numpy.std a ddof) = Numpy.var a ddof.
Proof.
  unfold square, Numpy.std. cbn [fmul fsqrt exact].
  apply sqrt_sqrt, var_nonneg.
Qed.

(** The result through the two variances. *)
Lemma cepR_by_var (p : R * R) (s : list (R * R)) :
  cepR (p :: s) =
  Ok (cep_constant *
      R_sqrt.sqrt (Numpy.var (map fst (p :: s)) 1 + Numpy.var (map snd (p :: s)) 1)).
Proof.
  unfold cepR. rewrite calculate_cep_cons, !square_std. reflexivity.
Qed.

Lemma mean_of_column_linear (a b : R) (s : list (R * R)) :
  Numpy.mean (A := exact) (map (fun p => a * fst p + b * snd p) s) =
  a * Numpy.mean (map fst s) + b * Numpy.mean (map snd s).
Proof.
  rewrite !mean_exact, sigma_linear, !length_map. unfold Rdiv. ring.
Qed.

Lemma cepR_rotate (theta : R) (s : list (R * R)) :
  cepR (map (rotate theta) s) = cepR s.
Proof.
  destruct s as [|p s]; [reflexivity|].
  rewrite map_cons, cepR_by_var, <- map_cons, cepR_by_var.
  do 3 f_equal.
  set (l := p :: s).
  assert (Hx : map fst (map (rotate theta) l)
               = map (fun q => cos theta * fst q + - sin theta * snd q) l).
  { rewrite map_map. apply map_ext. intros q. unfold rotate. simpl. ring. }
  assert (Hy : map snd (map (rotate theta) l)
               = map (fun q => sin theta * fst q + cos theta * snd q) l).
  { rewrite map_map. reflexivity. }
  rewrite Hx, Hy, !var_of_column, !mean_of_column_linear.
  unfold Rdiv. rewrite <- !Rmult_plus_distr_r. f_equal.
  rewrite !sigma_plus. f_equal. apply map_ext. intros q.
  pose proof (sin2_cos2 theta) as Hsc. unfold Rsqr in Hsc.
  set (mx := Numpy.mean (map fst l)) in *.
  set (my := Numpy.mean (map snd l)) in *.
  replace ((fst q - mx) * (fst q - mx) + (snd q - my) * (snd q - my))
    with ((sin theta * sin theta + cos theta * cos theta) *
          ((fst q - mx) * (fst q - mx) + (snd q - my) * (snd q - my)))
    by (rewrite Hsc; ring).
  ring.
Qed.

Lemma cep_constant_exact_pos : 0 < cep_constant (A := exact).
Proof.
  unfold cep_constant. cbn [fsqrt fmul of_int log_half exact].
  apply sqrt_lt_R0. pose proof ln_half_bounds. lra.
Qed.

Lemma var_zero_constant (X : Type) (f : X -> R) (s : list X) :
  (2 <= length s)%nat ->
  Numpy.var (A := exact) (map f s) 1 = 0 ->
  Forall (fun p => f p = Numpy.mean (map f s)) s.
Proof.
  intros Hn H. rewrite var_of_column in H.
  rewrite Z.max_l in H by lia.
  assert (Hd : 0 < IZR (Z.of_nat (length s) - 1)) by (apply IZR_lt; lia).
  assert (Hs : Spec.sigma (map (fun p => (f p - Numpy.mean (map f s)) *
                                          (f p - Numpy.mean (map f s))) s) = 0).
  { apply (Rmult_eq_reg_r (/ IZR (Z.of_nat (length s) - 1))).
    - unfold Rdiv in H. lra.
    - apply Rinv_neq_0_compat. lra. }
  apply (sigma_squares_zero (fun p => f p - Numpy.mean (map f s))) in Hs.
  eapply Forall_impl; [|exact Hs]. intros q Hq. cbv beta in Hq. lra.
Qed.

Lemma cepR_zero_identical (s : list (R * R)) :
  (2 <= length s)%nat -> cepR s = Ok 0 ->
  exists p, Forall (fun q => q = p) s.
Proof.
  intros Hn H. destruct s as [|p0 s]; [simpl in Hn; lia|].
  rewrite cepR_by_var in H.
  set (l := p0 :: s) in *.
  assert (Hm : cep_constant * R_sqrt.sqrt (Numpy.var (map fst l) 1 + Numpy.var (map snd l) 1) = 0)
    by congruence.
  pose proof cep_constant_exact_pos as Hc.
  pose proof (var_nonneg (map fst l) 1) as Hvx.
  pose proof (var_nonneg (map snd l) 1) as Hvy.
  assert (Hsq : R_sqrt.sqrt (Numpy.var (map fst l) 1 + Numpy.var (map snd l) 1) = 0).
  { apply Rmult_integral in Hm as [Hm|Hm]; [lra | exact Hm]. }
  apply sqrt_eq_0 in Hsq; [|lra].
  assert (Hx : Numpy.var (A := exact) (map fst l) 1 = 0) by lra.
  assert (Hy : Numpy.var (A := exact) (map snd l) 1 = 0) by lra.
  apply var_zero_constant in Hx; [|exact Hn].
  apply var_zero_constant in Hy; [|exact Hn].
  exists (Numpy.mean (map fst l), Numpy.mean (map snd l)).
  rewrite Forall_forall in *. intros q Hq.
  specialize (Hx q Hq). specialize (Hy q Hq).
  destruct q as [x y]. simpl in *. congruence.
Qed.

Lemma cepR_two_points (x1 y1 x2 y2 : R) :
  cepR [(x1, y1); (x2, y2)] =
  Ok (cep_constant *
      R_sqrt.sqrt (((x1 - x2) * (x1 - x2) + (y1 - y2) * (y1 - y2)) / 2)).
Proof.
  rewrite cepR_by_var. do 3 f_equal.
  cbn [map fst snd]. rewrite !var_exact, !mean_exact. simpl.
  change (Z.max 1 0) with 1%Z. field.
Qed.

Lemma cepR_scale_any (k : R) (s : list (R * R)) :
  cepR (map (scale k) s) = times (Rabs k) (cepR s).
Proof.
  destruct s as [|p s]; [reflexivity|].
  rewrite map_cons, cepR_by_var, <- map_cons, cepR_by_var.
  rewrite map_fst_scale, map_snd_scale, !var_scale.
  unfold times, bind. cbn [fmul exact]. f_equal.
  pose proof (var_nonneg (map fst (p :: s)) 1) as Hx.
  pose proof (var_nonneg (map snd (p :: s)) 1) as Hy.
  set (vx := Numpy.var (map fst (p :: s)) 1) in *.
  set (vy := Numpy.var (map snd (p :: s)) 1) in *.
  pose proof (Rabs_pos k) as Hk.
  replace (k * k * vx + k * k * vy) with (Rabs k * Rabs k * (vx + vy)).
  - rewrite sqrt_mult_alt by nra. rewrite sqrt_square by assumption. ring.
  - rewrite <- Rabs_mult, Rabs_pos_eq by nra. ring.
Qed.

End ExactSymmetry.
(** ** The constant of the routine *)

Section Constant.
Local Open Scope R_scope.

Ltac square_up H q :=
  match type of H with
  | ?b <= exp ?t =>
      let H' := fresh in
      assert (H' : q <= exp (2 * t))
        by (apply (@exp_square_bound t q b); [lra | exact H | lra]);
      clear H; rename H' into H
  end.

(** exp x is at least (1 + x/2^20)^(2^20): twenty squarings, each rounded
    down to eighteen decimals. *)
Lemma exp_above_2_fine : 2 < exp (69325 / 100000).
Proof.
  pose proof (exp_ineq1_le (69325 / 100000 / 1048576)) as H.
  square_up H (1000001322269876796 / 1000000000000000000).
  square_up H (1000002644541501989 / 1000000000000000000).
  square_up H (1000005289089997577 / 1000000000000000000).
  square_up H (1000010578207969627 / 1000000000000000000).
  square_up H (1000021156527837737 / 1000000000000000000).
  square_up H (1000042313503274144 / 1000000000000000000).
  square_up H (1000084628796980847 / 1000000000000000000).
  square_up H (1000169264755994972 / 1000000000000000000).
  square_up H (1000338558162547566 / 1000000000000000000).
  square_up H (1000677230946724559 / 1000000000000000000).
  square_up H (1001354920535204319 / 1000000000000000000).
  square_up H (1002711676880065356 / 1000000000000000000).
  square_up H (1005430706951632592 / 1000000000000000000).
  square_up H (1010890906481259694 / 1000000000000000000).
  square_up H (1021900424806502932 / 1000000000000000000).
  square_up H (1044280478219711152 / 1000000000000000000).
  square_up H (1090521717190788617 / 1000000000000000000).
  square_up H (1189237615664746349 / 1000000000000000000).
  square_up H (1414286106511970950 / 1000000000000000000).
  square_up H (2000205191072790038 / 1000000000000000000).
  replace (2 * (2 * (2 * (2 * (2 * (2 * (2 * (2 * (2 * (2 * (2 * (2 * (2 * (2 * (2 * (2 * (2 * (2 * (2 * (2 * (69325 / 100000 / 1048576)))))))))))))))))))))
    with (69325 / 100000) in H by field.
  lra.
Qed.

Lemma exp_above_half_fine : 1 / 2 < exp (- (69314 / 100000)).
Proof.
  pose proof (exp_ineq1_le (- (69314 / 100000) / 1048576)) as H.
  square_up H (999998677940805612 / 1000000000000000000).
  square_up H (999997355883359064 / 1000000000000000000).
  square_up H (999994711773709480 / 1000000000000000000).
  square_up H (999989423575384297 / 1000000000000000000).
  square_up H (999978847262629351 / 1000000000000000000).
  square_up H (999957694972697000 / 1000000000000000000).
  square_up H (999915391735109335 / 1000000000000000000).
  square_up H (999830790628777157 / 1000000000000000000).
  square_up H (999661609889365623 / 1000000000000000000).
  square_up H (999323334286598221 / 1000000000000000000).
  square_up H (998647126449684135 / 1000000000000000000).
  square_up H (997296083166211414 / 1000000000000000000).
  square_up H (994599477498666873 / 1000000000000000000).
  square_up H (989228120640621151 / 1000000000000000000).
  square_up H (978572274666175314 / 1000000000000000000).
  square_up H (957603696745332460 / 1000000000000000000).
  square_up H (917004840020326653 / 1000000000000000000).
  square_up H (840897876620704878 / 1000000000000000000).
  square_up H (707109238905210203 / 1000000000000000000).
  square_up H (500003475745105638 / 1000000000000000000).
  replace (2 * (2 * (2 * (2 * (2 * (2 * (2 * (2 * (2 * (2 * (2 * (2 * (2 * (2 * (2 * (2 * (2 * (2 * (2 * (2 * (- (69314 / 100000) / 1048576)))))))))))))))))))))
    with (- (69314 / 100000)) in H by field.
  lra.
Qed.

(** 0.69314 < ln 2 < 0.69325 *)
Lemma ln_half_fine : - (69325 / 100000) < ln (1 / 2) < - (69314 / 100000).
Proof.
  split.
  - rewrite <- (ln_exp (- (69325 / 100000))).
    apply ln_increasing; [apply exp_pos|].
    rewrite exp_Ropp.
    pose proof exp_above_2_fine as H.
    apply Rinv_lt_contravar in H; [lra|].
    apply Rmult_lt_0_compat; [lra | apply exp_pos].
  - rewrite <- (ln_exp (- (69314 / 100000))).
    apply ln_increasing; [lra | apply exp_above_half_fine].
Qed.

Lemma cep_constant_exact_bounds :
  11774 / 10000 < cep_constant (A := exact) < 11775 / 10000.
Proof.
  unfold cep_constant. cbn [fsqrt fmul of_int log_half exact].
  pose proof ln_half_fine as [Hlo Hhi].
  split.
  - rewrite <- (sqrt_square (11774 / 10000)) by lra.
    apply sqrt_lt_1_alt. lra.
  - rewrite <- (sqrt_square (11775 / 10000)) by lra.
    apply sqrt_lt_1_alt. lra.
Qed.

End Constant.
(** ** Sums of lists with an absorbing item *)

Section AbsorbingSum.
Context {F : Type} {A : Arith F}.
Variable P : F -> Prop.
Hypothesis P_add_l : forall x y, P x -> P (fadd x y).
Hypothesis P_add_r : forall x y, P y -> P (fadd x y).

Lemma fold_left_absorbs_acc (l : list F) : forall acc : F,
  P acc -> P (fold_left fadd l acc).
Proof. induction l as [|a l IH]; intros acc H; simpl; auto. Qed.

Lemma fold_left_absorbs (l : list F) : forall acc : F,
  Exists P l -> P (fold_left fadd l acc).
Proof.
  induction l as [|a l IH]; intros acc H; inversion H; subst; simpl.
  - apply fold_left_absorbs_acc. auto.
  - auto.
Qed.

Ltac split_Exists :=
  repeat match goal with
         | H : Exists _ (_ :: _) |- _ => apply Exists_cons in H; destruct H as [H|H]
         | H : Exists _ [] |- _ => inversion H
         end.

Lemma unrolled8_absorbs (n : nat) : forall (l : list F) (r0 r1 r2 r3 r4 r5 r6 r7 : F),
  (length l <= n)%nat ->
  Exists P (r0 :: r1 :: r2 :: r3 :: r4 :: r5 :: r6 :: r7 :: l) ->
  P (Numpy.unrolled8 r0 r1 r2 r3 r4 r5 r6 r7 l).
Proof.
  induction n as [|n IH]; intros l r0 r1 r2 r3 r4 r5 r6 r7 Hl H.
  - destruct l; [|simpl in Hl; lia].
    split_Exists; cbn [Numpy.unrolled8 fold_left]; auto 14.
  - destruct l as [|a0 [|a1 [|a2 [|a3 [|a4 [|a5 [|a6 [|a7 l']]]]]]]];
      try solve [split_Exists; cbn [Numpy.unrolled8 fold_left]; auto 14].
    cbn [Numpy.unrolled8].
    apply IH; [simpl in Hl; lia|].
    split_Exists; repeat rewrite Exists_cons; auto 14.
Qed.

Lemma block_sum_absorbs (l : list F) : Exists P l -> P (Numpy.block_sum l).
Proof.
  intros H.
  destruct l as [|a0 [|a1 [|a2 [|a3 [|a4 [|a5 [|a6 [|a7 l']]]]]]]];
    try (cbn [Numpy.block_sum]; now apply fold_left_absorbs).
  cbn [Numpy.block_sum]. now apply (@unrolled8_absorbs (length l')).
Qed.

Lemma pairwise_sum_absorbs (fuel : nat) : forall l : list F,
  Exists P l -> P (Numpy.pairwise_sum fuel l).
Proof.
  induction fuel as [|fuel IH]; intros l H; cbn [Numpy.pairwise_sum].
  - now apply block_sum_absorbs.
  - destruct (128 <? length l)%nat; [|now apply block_sum_absorbs].
    set (n2 := (length l / 2 - (length l / 2) mod 8)%nat).
    rewrite <- (firstn_skipn n2 l), Exists_app in H.
    destruct H as [H|H]; [apply P_add_l | apply P_add_r]; now apply IH.
Qed.

Lemma sum_absorbs (l : list F) : Exists P l -> P (Numpy.sum l).
Proof. intros H. unfold Numpy.sum. now apply P_add_r, pairwise_sum_absorbs. Qed.

End AbsorbingSum.

Section Float64Edges.
Local Open Scope float_scope.

Lemma add_comm64 (x y : float) : x + y = y + x.
Proof. apply Prim2SF_inj. rewrite !add_spec. apply SFadd_comm. Qed.

Lemma cep64_swap_axes (s : list (float * float)) :
  cep64 (map swap_axes s) = cep64 s.
Proof.
  unfold cep64. destruct s as [|p s]; [reflexivity|].
  rewrite map_cons, !calculate_cep_cons, <- map_cons.
  assert (H1 : map fst (map swap_axes (p :: s)) = map snd (p :: s))
    by (rewrite map_map; reflexivity).
  assert (H2 : map snd (map swap_axes (p :: s)) = map fst (p :: s))
    by (rewrite map_map; reflexivity).
  rewrite H1, H2. cbn [fadd float64]. now rewrite add_comm64.
Qed.

Lemma is_infinity_spec (x : float) :
  is_infinity x = true <-> exists s, Prim2SF x = S754_infinity s.
Proof.
  unfold is_infinity. rewrite eqb_spec, abs_spec.
  change (Prim2SF infinity) with (S754_infinity false).
  destruct (Prim2SF x) as [s|s| |s m e]; simpl; split;
    try discriminate; try (intros [s' H]; discriminate); eauto.
Qed.

Lemma inf_or_nan_add_l (s : bool) (x y : spec_float) :
  inf_or_nan s x -> inf_or_nan s (SF64add x y).
Proof.
  unfold inf_or_nan. intros [->| ->]; [left; reflexivity|].
  destruct y as [sy|sy| |sy my ey]; simpl; auto.
  destruct s, sy; auto.
Qed.

Lemma inf_or_nan_add_r (s : bool) (x y : spec_float) :
  inf_or_nan s y -> inf_or_nan s (SF64add x y).
Proof. rewrite SFadd_comm. apply inf_or_nan_add_l. Qed.

Lemma of_count_sign_clear (n : nat) :
  sf_sign_clear (Prim2SF (float_of_int (Z.of_nat n))).
Proof.
  assert (H : forall i, sf_sign_clear (Prim2SF (of_uint63 i))).
  { intros i. rewrite of_uint63_spec.
    pose proof (Uint63.to_Z_bounded i) as Hb.
    destruct (Uint63.to_Z i) as [|m|m]; [reflexivity| |lia].
    unfold binary_normalize, binary_round.
    destruct (shl_align m 0 _) as [mz ez].
    pose proof (binary_round_aux_sign false (Z.pos mz) ez loc_Exact) as Hs.
    destruct (binary_round_aux prec emax false (Z.pos mz) ez loc_Exact); simpl; auto. }
  pose proof (Nat2Z.is_nonneg n) as Hn. unfold float_of_int.
  destruct (Z.of_nat n); [apply H | apply H | lia].
Qed.

Lemma inf_or_nan_div (s : bool) (x y : spec_float) :
  inf_or_nan s x -> sf_sign_clear y -> inf_or_nan s (SF64div x y).
Proof.
  unfold inf_or_nan. intros [->| ->] Hy; [left; reflexivity|].
  destruct y as [sy|sy| |sy my ey]; simpl in *; subst; auto;
    rewrite xorb_false_r; auto.
Qed.

Lemma inf_sub_inf_or_nan (s : bool) (m : spec_float) :
  inf_or_nan s m -> SF64sub (S754_infinity s) m = S754_nan.
Proof. intros [->| ->]; [reflexivity | now destruct s]. Qed.

(** A NaN among the deviations from the mean makes the standard deviation
    NaN. *)
Lemma std_nan_of_deviation (a : list float) (ddof : Z) :
  Exists (fun v => is_nan (v - Numpy.mean a) = true) a ->
  is_nan (Numpy.std a ddof) = true.
Proof.
  intros H. unfold Numpy.std, Numpy.var. cbn [fsqrt fdiv fsub fmul float64].
  apply nan_sqrt, nan_div_l, sum_nan.
  unfold some_nan. rewrite !Exists_map.
  eapply Exists_impl; [|exact H].
  intros v Hv. cbv beta. now apply nan_mul_l.
Qed.

Lemma std_infinite (a : list float) (ddof : Z) :
  Exists (fun v => is_infinity v = true) a ->
  is_nan (Numpy.std a ddof) = true.
Proof.
  intros H. apply std_nan_of_deviation.
  apply Exists_exists in H as (v & Hin & Hv).
  apply is_infinity_spec in Hv as [s Hv].
  apply Exists_exists. exists v. split; [assumption|].
  apply is_nan_spec. rewrite sub_spec, Hv.
  apply inf_sub_inf_or_nan.
  unfold Numpy.mean. cbn [fdiv of_int float64]. rewrite div_spec.
  apply inf_or_nan_div; [|apply of_count_sign_clear].
  apply (@sum_absorbs float float64 (fun x => inf_or_nan s (Prim2SF x))).
  - intros x y Hx. cbn [fadd float64]. rewrite add_spec. now apply inf_or_nan_add_l.
  - intros x y Hy. cbn [fadd float64]. rewrite add_spec. now apply inf_or_nan_add_r.
  - apply Exists_exists. exists v. split; [assumption|]. right. exact Hv.
Qed.

Lemma cep64_infinite (s : list (float * float)) :
  Exists (fun p => is_infinity (fst p) = true \/ is_infinity (snd p) = true) s ->
  exists v, cep64 s = Ok v /\ is_nan v = true.
Proof.
  intros H. unfold cep64.
  destruct s as [|p s]; [inversion H|].
  rewrite calculate_cep_cons. eexists. split; [reflexivity|].
  cbn [fmul fsqrt fadd float64]. apply nan_mul_r, nan_sqrt. unfold square.
  cbn [fmul float64].
  apply Exists_exists in H as (q & Hq & [Hn|Hn]).
  - apply nan_add_l, nan_mul_l, std_infinite.
    apply Exists_exists. exists (fst q). split; [now apply in_map|assumption].
  - apply nan_add_r, nan_mul_l, std_infinite.
    apply Exists_exists. exists (snd q). split; [now apply in_map|assumption].
Qed.

End Float64Edges.
(** ** Sums of lists related item by item *)

Section RelatedSums.
Context {F : Type} {A : Arith F} {F' : Type} {A' : Arith F'}.
Variable Rel : F -> F' -> Prop.
Hypothesis Rel_add : forall a a' b b',
  Rel a a' -> Rel b b' -> Rel (fadd a b) (fadd a' b').
Hypothesis Rel_zero : Rel fzero fzero.

Lemma fold_left_related (l : list F) (l' : list F') :
  Forall2 Rel l l' -> forall (acc : F) (acc' : F'),
  Rel acc acc' -> Rel (fold_left fadd l acc) (fold_left fadd l' acc').
Proof. induction 1; intros acc acc' Hacc; simpl; auto. Qed.

Ltac invert_Forall2 :=
  repeat match goal with
         | H : Forall2 _ (_ :: _) _ |- _ => inversion H; subst; clear H
         | H : Forall2 _ [] _ |- _ => inversion H; subst; clear H
         end.

Lemma unrolled8_related (n : nat) :
  forall (l : list F) (l' : list F') (r0 r1 r2 r3 r4 r5 r6 r7 : F)
         (r0' r1' r2' r3' r4' r5' r6' r7' : F'),
  (length l <= n)%nat -> Forall2 Rel l l' ->
  Rel r0 r0' -> Rel r1 r1' -> Rel r2 r2' -> Rel r3 r3' ->
  Rel r4 r4' -> Rel r5 r5' -> Rel r6 r6' -> Rel r7 r7' ->
  Rel (Numpy.unrolled8 r0 r1 r2 r3 r4 r5 r6 r7 l)
      (Numpy.unrolled8 r0' r1' r2' r3' r4' r5' r6' r7' l').
Proof.
  induction n as [|n IH]; intros l l' r0 r1 r2 r3 r4 r5 r6 r7
    r0' r1' r2' r3' r4' r5' r6' r7' Hl H H0 H1 H2 H3 H4 H5 H6 H7.
  - destruct l; [|simpl in Hl; lia]. invert_Forall2.
    cbn [Numpy.unrolled8 fold_left]. auto 8.
  - destruct l as [|a0 [|a1 [|a2 [|a3 [|a4 [|a5 [|a6 [|a7 l0]]]]]]]];
      invert_Forall2;
      try solve [cbn [Numpy.unrolled8 fold_left]; auto 16].
    cbn [Numpy.unrolled8].
    apply IH; auto. simpl in Hl. lia.
Qed.

Lemma block_sum_related (l : list F) (l' : list F') :
  Forall2 Rel l l' -> Rel (Numpy.block_sum l) (Numpy.block_sum l').
Proof.
  intros H.
  destruct l as [|a0 [|a1 [|a2 [|a3 [|a4 [|a5 [|a6 [|a7 l0]]]]]]]];
    invert_Forall2;
    try solve [cbn [Numpy.block_sum fold_left]; auto 16].
  cbn [Numpy.block_sum]. apply (@unrolled8_related (length l0)); auto.
Qed.

Lemma Forall2_firstn (n : nat) : forall (l : list F) (l' : list F'),
  Forall2 Rel l l' -> Forall2 Rel (firstn n l) (firstn n l').
Proof.
  induction n as [|n IH]; intros l l' H; [constructor|].
  destruct H; simpl; constructor; auto.
Qed.

Lemma Forall2_skipn (n : nat) : forall (l : list F) (l' : list F'),
  Forall2 Rel l l' -> Forall2 Rel (skipn n l) (skipn n l').
Proof.
  induction n as [|n IH]; intros l l' H; [assumption|].
  destruct H; simpl; auto.
Qed.

Lemma pairwise_sum_related (fuel : nat) : forall (l : list F) (l' : list F'),
  Forall2 Rel l l' ->
  Rel (Numpy.pairwise_sum fuel l) (Numpy.pairwise_sum fuel l').
Proof.
  induction fuel as [|fuel IH]; intros l l' H; cbn [Numpy.pairwise_sum].
  - now apply block_sum_related.
  - rewrite <- (Forall2_length H).
    destruct (128 <? length l)%nat; [|now apply block_sum_related].
    apply Rel_add; apply IH; [now apply Forall2_firstn | now apply Forall2_skipn].
Qed.

Lemma sum_related (l : list F) (l' : list F') :
  Forall2 Rel l l' -> Rel (Numpy.sum l) (Numpy.sum l').
Proof.
  intros H. unfold Numpy.sum. rewrite <- (Forall2_length H).
  apply Rel_add; [exact Rel_zero | now apply pairwise_sum_related].
Qed.

End RelatedSums.

Section Float64Mirror.
Local Open Scope float_scope.

Lemma binary_round_aux_opp (s : bool) (m e : Z) (l : location) :
  binary_round_aux prec emax (negb s) m e l =
  SFopp (binary_round_aux prec emax s m e l).
Proof.
  unfold binary_round_aux.
  destruct (shr_fexp prec emax m e l) as [mrs' e'].
  destruct (shr_fexp prec emax _ e' loc_Exact) as [mrs'' e''].
  destruct (shr_m mrs''); [reflexivity| |reflexivity].
  destruct (e'' <=? emax - prec)%Z; reflexivity.
Qed.

Lemma binary_normalize_opp (z e : Z) :
  sf_mirror (binary_normalize prec emax z e false)
            (binary_normalize prec emax (- z) e false).
Proof.
  destruct z as [|p|p]; simpl.
  - right. split; exact I.
  - left. unfold binary_round.
    destruct (shl_align p e _) as [mz ez].
    apply (binary_round_aux_opp false).
  - left. unfold binary_round.
    destruct (shl_align p e _) as [mz ez].
    rewrite (binary_round_aux_opp false). 
    now destruct (binary_round_aux prec emax false (Z.pos mz) ez loc_Exact) as [[|]|[|]| |[|] ? ?].
Qed.

Lemma cond_Zopp_negb (s : bool) (z : Z) : cond_Zopp (negb s) z = (- cond_Zopp s z)%Z.
Proof. destruct s; simpl; lia. Qed.

Lemma sf_mirror_add_finite (sa sb : bool) (ma mb : positive) (ea eb : Z) :
  sf_mirror (SF64add (S754_finite sa ma ea) (S754_finite sb mb eb))
            (SF64add (S754_finite (negb sa) ma ea) (S754_finite (negb sb) mb eb)).
Proof.
  unfold SF64add, SFadd. rewrite !cond_Zopp_negb, <- Z.opp_add_distr.
  apply binary_normalize_opp.
Qed.

Ltac mirror_cases :=
  simpl; try solve [left; reflexivity | right; split; exact I | tauto].

Lemma sf_mirror_add (a a' b b' : spec_float) :
  sf_mirror a a' -> sf_mirror b b' -> sf_mirror (SF64add a b) (SF64add a' b').
Proof.
  intros [-> | [Ha Ha']] [-> | [Hb Hb']].
  - destruct a as [sa|sa| |sa ma ea], b as [sb|sb| |sb mb eb]; mirror_cases;
      try solve [destruct sa, sb; mirror_cases].
    apply sf_mirror_add_finite.
  - destruct b as [sb| | |]; try contradiction.
    destruct b' as [sb'| | |]; try contradiction.
    destruct a as [sa|sa| |sa ma ea]; mirror_cases.
    destruct sa, sb, sb'; mirror_cases.
  - destruct a as [sa| | |]; try contradiction.
    destruct a' as [sa'| | |]; try contradiction.
    destruct b as [sb|sb| |sb mb eb]; mirror_cases.
    destruct sa, sa', sb; mirror_cases.
  - destruct a as [sa| | |]; try contradiction.
    destruct a' as [sa'| | |]; try contradiction.
    destruct b as [sb| | |]; try contradiction.
    destruct b' as [sb'| | |]; try contradiction.
    destruct sa, sa', sb, sb'; mirror_cases.
Qed.

Lemma sf_mirror_div (x x' n : spec_float) :
  sf_mirror x x' -> sf_mirror (SF64div x n) (SF64div x' n).
Proof.
  intros [-> | [Hx Hx']].
  - destruct x as [sx|sx| |sx mx ex], n as [sn|sn| |sn mn en]; mirror_cases;
      try solve [destruct sx, sn; mirror_cases].
    left. unfold SF64div, SFdiv.
    destruct (SFdiv_core_binary prec emax (Z.pos mx) ex (Z.pos mn) en) as [[mz ez] lz].
    rewrite <- binary_round_aux_opp. now destruct sx, sn.
  - destruct x as [sx| | |]; try contradiction.
    destruct x' as [sx'| | |]; try contradiction.
    destruct n as [sn|sn| |sn mn en]; mirror_cases.
Qed.

Lemma sf_mirror_sub_finite (sv sm : bool) (mv mm : positive) (ev em : Z) :
  sf_mirror (SF64sub (S754_finite sv mv ev) (S754_finite sm mm em))
            (SF64sub (S754_finite (negb sv) mv ev) (S754_finite (negb sm) mm em)).
Proof.
  unfold SF64sub, SFsub. rewrite !cond_Zopp_negb.
  match goal with
  | |- sf_mirror (binary_normalize _ _ (?a - ?b) _ _) _ =>
      replace (- a - - b)%Z with (- (a - b))%Z by lia
  end.
  apply binary_normalize_opp.
Qed.

(** The deviation of a negated item from a mirrored mean. *)
Lemma sf_mirror_sub (v m m' : spec_float) :
  sf_mirror m m' -> sf_mirror (SF64sub v m) (SF64sub (SFopp v) m').
Proof.
  intros [-> | [Hm Hm']].
  - destruct v as [sv|sv| |sv mv ev], m as [sm|sm| |sm mm em]; mirror_cases;
      try solve [destruct sv, sm; mirror_cases].
    apply sf_mirror_sub_finite.
  - destruct m as [sm| | |]; try contradiction.
    destruct m' as [sm'| | |]; try contradiction.
    destruct v as [sv|sv| |sv mv ev]; mirror_cases.
    destruct sv, sm, sm'; mirror_cases.
Qed.

(** Mirrored values have the same square. *)
Lemma sf_mirror_square (d d' : spec_float) :
  sf_mirror d d' -> SF64mul d d = SF64mul d' d'.
Proof.
  intros [-> | [Hd Hd']].
  - destruct d as [s|s| |s m e]; simpl; try reflexivity;
      now destruct s.
  - destruct d as [s| | |]; try contradiction.
    destruct d' as [s'| | |]; try contradiction.
    now destruct s, s'.
Qed.

Lemma mirrored_opp (x : float) : mirrored x (- x).
Proof. left. apply opp_spec. Qed.

Lemma mirrored_sum (a : list float) :
  mirrored (Numpy.sum a) (Numpy.sum (map PrimFloat.opp a)).
Proof.
  apply (@sum_related float float64 float float64 mirrored).
  - intros x x' y y' Hx Hy. unfold mirrored. cbn [fadd float64].
    rewrite !add_spec. now apply sf_mirror_add.
  - right. split; exact I.
  - induction a; constructor; [apply mirrored_opp | assumption].
Qed.

Lemma mirrored_mean (a : list float) :
  mirrored (Numpy.mean a) (Numpy.mean (map PrimFloat.opp a)).
Proof.
  unfold Numpy.mean, mirrored. rewrite length_map. cbn [fdiv float64].
  rewrite !div_spec. apply sf_mirror_div, mirrored_sum.
Qed.

(** Negating every item of a column changes none of the squared deviations,
    hence not the variance. *)
Lemma var_opp (a : list float) (ddof : Z) :
  Numpy.var (map PrimFloat.opp a) ddof = Numpy.var a ddof.
Proof.
  unfold Numpy.var. rewrite length_map, !map_map. do 2 f_equal.
  apply map_ext. intros v. cbn [fmul fsub float64].
  apply Prim2SF_inj. rewrite !mul_spec, !sub_spec, opp_spec.
  symmetry. apply sf_mirror_square, sf_mirror_sub, mirrored_mean.
Qed.

Lemma cep64_mirror_x (s : list (float * float)) :
  cep64 (map mirror_x s) = cep64 s.
Proof.
  unfold cep64. destruct s as [|p s]; [reflexivity|].
  rewrite map_cons, !calculate_cep_cons, <- map_cons.
  assert (H1 : map fst (map mirror_x (p :: s)) = map PrimFloat.opp (map fst (p :: s)))
    by (rewrite !map_map; reflexivity).
  assert (H2 : map snd (map mirror_x (p :: s)) = map snd (p :: s))
    by (rewrite map_map; reflexivity).
  rewrite H1, H2. unfold Numpy.std. now rewrite var_opp.
Qed.

Lemma cep64_mirror_y (s : list (float * float)) :
  cep64 (map mirror_y s) = cep64 s.
Proof.
  unfold cep64. destruct s as [|p s]; [reflexivity|].
  rewrite map_cons, !calculate_cep_cons, <- map_cons.
  assert (H1 : map fst (map mirror_y (p :: s)) = map fst (p :: s))
    by (rewrite map_map; reflexivity).
  assert (H2 : map snd (map mirror_y (p :: s)) = map PrimFloat.opp (map snd (p :: s)))
    by (rewrite !map_map; reflexivity).
  rewrite H1, H2. unfold Numpy.std. now rewrite var_opp.
Qed.

End Float64Mirror.

Section Float64Turn.

Lemma same_outcome_eq (r r' : result float) : r' = r -> same_outcome r r'.
Proof.
  intros ->. destruct r as [v|e]; simpl; [|reflexivity].
  now destruct (is_nan v) eqn:Hv.
Qed.

Lemma cep64_quarter_turn (s : list (float * float)) :
  cep64 (map quarter_turn s) = cep64 s.
Proof.
  assert (H : map quarter_turn s = map mirror_x (map swap_axes s))
    by (rewrite map_map; reflexivity).
  rewrite H, cep64_mirror_x. apply cep64_swap_axes.
Qed.

End Float64Turn.

(** ** The script: formatting *)

Section FormatFacts.
Import Stdlib.Strings.Ascii Stdlib.Strings.String.
Import Format.
Local Open Scope Z_scope.

Lemma round_half_even_near (num den : Z) :
  0 <= num -> 0 < den ->
  0 <= round_half_even num den /\
  2 * Z.abs (round_half_even num den * den - num) <= den.
Proof.
  intros Hn Hd. unfold round_half_even.
  pose proof (Z.div_mod num den ltac:(lia)) as Hdm.
  pose proof (Z.mod_pos_bound num den Hd) as Hr.
  pose proof (Z.div_pos num den Hn Hd) as Hq.
  destruct (Z.compare_spec (2 * (num mod den)) den) as [He|Hl|Hg].
  - destruct (Z.even (num / den)); split; nia.
  - split; nia.
  - split; nia.
Qed.

Lemma digit_value_digit (k : Z) :
  0 <= k < 10 -> digit_value (digit k) = Some k.
Proof.
  intros Hk.
  assert (H : k = 0 \/ k = 1 \/ k = 2 \/ k = 3 \/ k = 4 \/
              k = 5 \/ k = 6 \/ k = 7 \/ k = 8 \/ k = 9) by lia.
  repeat destruct H as [->|H]; try reflexivity. subst. reflexivity.
Qed.

Lemma digits_from_app (a b : string) : forall acc : Z,
  digits_from acc (a ++ b) =
  match digits_from acc a with
  | Some v => digits_from v b
  | None => None
  end.
Proof.
  induction a as [|c a IH]; intros acc; simpl; [reflexivity|].
  destruct (digit_value c); [apply IH | reflexivity].
Qed.

(** Reading [fraction width n] continues the number read so far with the
    [width] lowest digits of [n]. *)
Lemma digits_from_fraction (width : nat) : forall n acc : Z,
  0 <= n ->
  digits_from acc (fraction width n) =
  Some (acc * 10 ^ Z.of_nat width + n mod 10 ^ Z.of_nat width).
Proof.
  induction width as [|w IH]; intros n acc Hn.
  - simpl. rewrite Z.mod_1_r. f_equal. lia.
  - cbn [fraction]. rewrite digits_from_app, IH by (apply Z.div_pos; lia).
    cbn [digits_from].
    rewrite digit_value_digit by (apply Z.mod_pos_bound; lia).
    f_equal. rewrite Nat2Z.inj_succ, Z.pow_succ_r by lia.
    rewrite (Z.rem_mul_r n 10 (10 ^ Z.of_nat w)) by lia.
    ring.
Qed.

Lemma length_app_string (a b : string) :
  length (a ++ b) = (length a + length b)%nat.
Proof. induction a as [|c a IH]; simpl; [|rewrite IH]; reflexivity. Qed.

Lemma length_fraction (width : nat) : forall n : Z,
  length (fraction width n) = width.
Proof.
  induction width as [|w IH]; intros n; [reflexivity|].
  cbn [fraction]. rewrite length_app_string, IH. simpl. lia.
Qed.

(** Enough fuel counts enough digits. *)
Lemma count_digits_enough (fuel : nat) : forall n : Z,
  0 <= n -> Z.log2 n <= Z.of_nat fuel ->
  n < 10 ^ Z.of_nat (count_digits fuel n).
Proof.
  induction fuel as [|f IH]; intros n Hn Hlog.
  - simpl. destruct (Z.eq_dec n 0) as [->|Hz]; [lia|].
    pose proof (Z.log2_spec n ltac:(lia)) as Hs.
    assert (Z.log2 n = 0) by (pose proof (Z.log2_nonneg n); lia).
    rewrite H in Hs. simpl in Hs. lia.
  - cbn [count_digits]. destruct (Z.ltb_spec n 10) as [Hl|Hg]; [simpl; lia|].
    rewrite Nat2Z.inj_succ, Z.pow_succ_r by lia.
    assert (Hq : n / 10 < 10 ^ Z.of_nat (count_digits f (n / 10))).
    { apply IH; [apply Z.div_pos; lia|].
      assert (H1 : Z.log2 (n / 10) <= Z.log2 (n / 2))
        by (apply Z.log2_le_mono, Z.div_le_compat_l; lia).
      assert (H2 : Z.log2 (2 * (n / 2)) <= Z.log2 n).
      { apply Z.log2_le_mono. pose proof (Z.mul_div_le n 2 ltac:(lia)). lia. }
      rewrite Z.log2_double in H2; [lia|].
      apply Z.div_str_pos. lia. }
    pose proof (Z.div_mod n 10 ltac:(lia)).
    pose proof (Z.mod_pos_bound n 10 ltac:(lia)). lia.
Qed.

Lemma digits_from_whole (n : Z) :
  0 <= n -> digits_from 0 (whole n) = Some n.
Proof.
  intros Hn. unfold whole. rewrite digits_from_fraction by assumption.
  f_equal. rewrite Z.mod_small; [lia|]. split; [assumption|].
  apply count_digits_enough; [assumption|].
  rewrite Z2Nat.id; [lia | apply Z.log2_nonneg].
Qed.

Lemma all_digits_app (a b : string) :
  all_digits (a ++ b) = all_digits a && all_digits b.
Proof.
  induction a as [|c a IH]; simpl; [reflexivity|].
  destruct (digit_value c); [apply IH | reflexivity].
Qed.

Lemma all_digits_fraction (width : nat) : forall n : Z,
  0 <= n -> all_digits (fraction width n) = true.
Proof.
  induction width as [|w IH]; intros n Hn; [reflexivity|].
  cbn [fraction]. rewrite all_digits_app, IH by (apply Z.div_pos; lia).
  cbn [all_digits]. now rewrite digit_value_digit by (apply Z.mod_pos_bound; lia).
Qed.

Lemma digit_not_point (c : ascii) (k : Z) :
  digit_value c = Some k -> Ascii.eqb c "." = false /\ Ascii.eqb c "-" = false.
Proof.
  intros H. split; apply Ascii.eqb_neq; intros ->; discriminate.
Qed.

Lemma split_point_digits (a b : string) :
  all_digits a = true -> split_point (a ++ String "." b) = (a, b).
Proof.
  induction a as [|c a IH]; simpl; intros H; [reflexivity|].
  destruct (digit_value c) as [k|] eqn:Hc; [|discriminate].
  destruct (digit_not_point c Hc) as [-> _]. now rewrite IH.
Qed.

Lemma split_point_no_point (a : string) :
  all_digits a = true -> split_point a = (a, EmptyString).
Proof.
  induction a as [|c a IH]; simpl; intros H; [reflexivity|].
  destruct (digit_value c) as [k|] eqn:Hc; [|discriminate].
  destruct (digit_not_point c Hc) as [-> _]. now rewrite IH.
Qed.


Lemma count_digits_pos (fuel : nat) (n : Z) : (1 <= count_digits fuel n)%nat.
Proof. destruct fuel; cbn [count_digits]; [|destruct (n <? 10)]; lia. Qed.

Lemma all_digits_whole (n : Z) : 0 <= n -> all_digits (whole n) = true.
Proof. intros Hn. now apply all_digits_fraction. Qed.

(** A number in decimal starts with a digit. *)
Lemma whole_head (n : Z) :
  0 <= n -> exists c s k, whole n = String c s /\ digit_value c = Some k.
Proof.
  intros Hn. pose proof (all_digits_whole Hn) as Ha.
  pose proof (length_fraction (count_digits (Z.to_nat (Z.log2 n)) n) n) as Hl.
  pose proof (count_digits_pos (Z.to_nat (Z.log2 n)) n) as Hc.
  fold (whole n) in Hl. destruct (whole n) as [|c s]; simpl in Hl; [lia|].
  cbn [all_digits] in Ha. destruct (digit_value c) as [k|] eqn:Hk; [|discriminate].
  now exists c, s, k.
Qed.

Lemma append_empty_r (a : string) : (a ++ EmptyString)%string = a.
Proof. induction a as [|c a IH]; simpl; [|rewrite IH]; reflexivity. Qed.

Lemma pow10_pos (d : nat) : 0 < 10 ^ Z.of_nat d.
Proof. apply Z.pow_pos_nonneg; lia. Qed.

(** Reading the text of [n] units of [10^-digits] gives [n / 10^digits]. *)
Lemma read_unsigned_render (d : nat) (n : Z) :
  0 <= n ->
  exists q, read_unsigned (render d false n) = Some q /\
            (q == n # Z.to_pos (10 ^ Z.of_nat d))%Q.
Proof.
  intros Hn. pose proof (pow10_pos d) as HD.
  assert (Hw : 0 <= n / 10 ^ Z.of_nat d) by (apply Z.div_pos; lia).
  unfold render, read_unsigned. cbn [append].
  destruct d as [|d'].
  - rewrite append_empty_r, split_point_no_point by now apply all_digits_whole.
    rewrite digits_from_whole by assumption. cbn [digits_from length].
    eexists. split; [reflexivity|].
    change (10 ^ Z.of_nat 0) with 1. rewrite Z.div_1_r.
    unfold Qeq, Qplus, inject_Z. cbn [Qnum Qden Z.to_pos]. lia.
  - set (d := S d') in *. set (D := 10 ^ Z.of_nat d) in *.
    rewrite split_point_digits by now apply all_digits_whole.
    rewrite digits_from_whole by assumption.
    pose proof (Z.mod_pos_bound n D HD) as Hm.
    rewrite digits_from_fraction by lia. rewrite length_fraction. fold D.
    eexists. split; [reflexivity|].
    rewrite Z.mod_mod by lia.
    unfold Qeq, Qplus, inject_Z. cbn [Qnum Qden].
    rewrite Pos2Z.inj_mul, Z2Pos.id by assumption.
    pose proof (Z.div_mod n D ltac:(lia)). nia.
Qed.

Lemma read_fixed_render (d : nat) (s : bool) (n : Z) :
  0 <= n ->
  exists q, read_fixed (render d s n) = Some q /\
            (q == (if s then - n else n) # Z.to_pos (10 ^ Z.of_nat d))%Q.
Proof.
  intros Hn. destruct (read_unsigned_render d Hn) as (q & Hq & Hv).
  destruct s.
  - exists (- q)%Q. split.
    + change (render d true n) with (String "-" (render d false n)).
      cbn [read_fixed]. change (Ascii.eqb "-" "-") with true. cbv iota.
      now rewrite Hq.
    + rewrite Hv. reflexivity.
  - exists q. split; [|assumption].
    assert (Hw : 0 <= n / 10 ^ Z.of_nat d)
      by (apply Z.div_pos; [lia | apply pow10_pos]).
    destruct (whole_head Hw) as (c & t & k & Ht & Hk).
    assert (Hr : exists t', render d false n = String c t').
    { unfold render. cbn [append]. rewrite Ht. cbn [append]. eauto. }
    destruct Hr as (t' & Hr). rewrite Hr in *. cbn [read_fixed].
    now destruct (digit_not_point c Hk) as [_ ->].
Qed.

(** The integer [scaled] picks is within half a unit of the scaled value. *)
Lemma scaled_near (d : nat) (m p : positive) :
  0 <= scaled d m (Zneg p) /\
  2 * Z.abs (scaled d m (Zneg p) * 2 ^ Zpos p - Zpos m * 10 ^ Z.of_nat d)
    <= 2 ^ Zpos p.
Proof.
  cbn [scaled]. apply round_half_even_near.
  - pose proof (pow10_pos d). lia.
  - apply Z.pow_pos_nonneg; lia.
Qed.

Lemma near_Q (a b : Z) (D E : positive) :
  2 * Z.abs (a * Zpos E - b * Zpos D) <= Zpos E ->
  (Qabs ((a # D) - (b # E)) <= 1 # (2 * D))%Q.
Proof.
  intros H. apply Qabs_Qle_condition.
  unfold Qle, Qminus, Qplus, Qopp. cbn [Qnum Qden].
  rewrite !Pos2Z.inj_mul. split; nia.
Qed.

End FormatFacts.

Section FormatRoundTrip.
Import Stdlib.Strings.Ascii Stdlib.Strings.String.
Import Format.

Lemma half_unit_pos (d : nat) :
  Z.to_pos (2 * 10 ^ Z.of_nat d) = (2 * Z.to_pos (10 ^ Z.of_nat d))%positive.
Proof.
  pose proof (pow10_pos d). now rewrite Z2Pos.inj_mul by lia.
Qed.

Lemma format_f_near (d : nat) (x : float) (v : Q) :
  float_value x = Some v ->
  exists q, read_fixed (format_f d x) = Some q /\
            (Qabs (q - v) <= 1 # Z.to_pos (2 * 10 ^ Z.of_nat d))%Q.
Proof.
  unfold float_value, format_f. pose proof (pow10_pos d) as HD.
  rewrite half_unit_pos.
  destruct (Prim2SF x) as [s|s| |s m e]; intros H; try discriminate.
  - injection H as <-.
    destruct (@read_fixed_render d s 0%Z ltac:(lia)) as (q & Hq & Hv).
    exists q. split; [assumption|]. rewrite Hv.
    change 0%Q with (0 # 1)%Q.
    apply near_Q. destruct s; simpl; lia.
  - injection H as <-.
    destruct e as [|p|p].
    + destruct (@read_fixed_render d s (scaled d m 0)) as (q & Hq & Hv).
      { cbn [scaled]. lia. }
      exists q. split; [assumption|]. rewrite Hv. unfold inject_Z.
      apply near_Q. rewrite Z2Pos.id by assumption. cbn [scaled].
      destruct s; lia.
    + assert (Hp : (0 < 2 ^ Zpos p)%Z) by (apply Z.pow_pos_nonneg; lia).
      destruct (@read_fixed_render d s (scaled d m (Zpos p))) as (q & Hq & Hv).
      { cbn [scaled]. nia. }
      exists q. split; [assumption|]. rewrite Hv. unfold inject_Z.
      apply near_Q. rewrite Z2Pos.id by assumption. cbn [scaled].
      destruct s; lia.
    + destruct (scaled_near d m p) as [Hn Hs].
      destruct (@read_fixed_render d s (scaled d m (Zneg p)) Hn) as (q & Hq & Hv).
      exists q. split; [assumption|]. rewrite Hv.
      apply near_Q. rewrite Z2Pos.id, Pos2Z.inj_pow by assumption.
      destruct s; lia.
Qed.

End FormatRoundTrip.

(** ** The script: what it prints *)

Section ScriptFacts.
Import Stdlib.Strings.Ascii Stdlib.Strings.String.
Import Script.
Local Open Scope string_scope.

Lemma append_assoc (a b c : string) : (a ++ b) ++ c = a ++ b ++ c.
Proof. induction a as [|x a IH]; simpl; [|rewrite IH]; reflexivity. Qed.

Lemma seq_print (X : Type) (s : string) (k : unit -> IO X) (out : string) :
  seq (print s) k out = k tt (out ++ s ++ nl).
Proof. reflexivity. Qed.

(** The loop prints one line per point, in order, and cannot fail. *)
Lemma print_points_run (sample_data : list (float * float)) : forall out : string,
  print_points sample_data out =
  (Ok tt, out ++ fold_right (fun point rest => point_text point ++ nl ++ rest)
                            EmptyString sample_data).
Proof.
  induction sample_data as [|point rest IH]; intros out.
  - cbn [print_points fold_right]. unfold ret. now rewrite append_empty_r.
  - cbn [print_points fold_right]. rewrite seq_print, IH.
    now rewrite !append_assoc.
Qed.

Lemma report_run (sample_data : list (float * float)) (cep_value : float)
      (out : string) :
  report sample_data cep_value out =
  (Ok tt,
   out ++ "Sample Data Points:" ++ nl
       ++ fold_right (fun point rest => point_text point ++ nl ++ rest)
                     EmptyString sample_data
       ++ nl ++ "-------------------------------------------" ++ nl
       ++ cep_text cep_value ++ nl
       ++ "-------------------------------------------" ++ nl
       ++ nl ++ "Interpretation:" ++ nl
       ++ "This means that approximately 50% of the data points are expected to fall" ++ nl
       ++ "within a circle with a radius of this value, centered at the average" ++ nl
       ++ "location of the data points." ++ nl).
Proof.
  unfold report. rewrite seq_print. unfold seq at 1. rewrite print_points_run.
  rewrite !seq_print. unfold print. now rewrite !append_assoc.
Qed.

End ScriptFacts.

(** ** When a run issues no warning *)

Section Float64Warnings.
Local Open Scope float_scope.

Lemma is_finite_spec (x : float) : is_finite x = true <-> sf_finite (Prim2SF x).
Proof.
  unfold is_finite.
  pose proof (is_nan_spec x) as [Hn1 Hn2].
  pose proof (is_infinity_spec x) as [Hi1 Hi2].
  destruct (Prim2SF x) as [s|s| |s m e]; simpl.
  - destruct (is_nan x); [discriminate (Hn1 eq_refl)|].
    destruct (is_infinity x); [destruct (Hi1 eq_refl); discriminate|].
    simpl. split; [intros _; exact I | reflexivity].
  - rewrite (Hi2 (ex_intro _ s eq_refl)), orb_true_r. simpl.
    split; [discriminate | contradiction].
  - rewrite (Hn2 eq_refl). simpl. split; [discriminate | contradiction].
  - destruct (is_nan x); [discriminate (Hn1 eq_refl)|].
    destruct (is_infinity x); [destruct (Hi1 eq_refl); discriminate|].
    simpl. split; [intros _; exact I | reflexivity].
Qed.

Lemma is_zero_spec (x : float) : is_zero x = true <-> sf_is_zero (Prim2SF x).
Proof.
  unfold is_zero. rewrite eqb_spec.
  change (Prim2SF zero) with (S754_zero false).
  destruct (Prim2SF x) as [s|s| |s m e]; simpl;
    try destruct s; simpl; split; try discriminate; try contradiction; auto.
Qed.

Lemma finite_SFadd (x y : spec_float) :
  sf_finite (SF64add x y) -> sf_finite x /\ sf_finite y.
Proof.
  destruct x as [sx|sx| |sx mx ex], y as [sy|sy| |sy my ey]; intros H;
    try (split; exact I); try (simpl in H; contradiction);
    destruct sx, sy; simpl in H; contradiction.
Qed.

Lemma finite_SFsub (x y : spec_float) :
  sf_finite (SF64sub x y) -> sf_finite x /\ sf_finite y.
Proof.
  destruct x as [sx|sx| |sx mx ex], y as [sy|sy| |sy my ey]; intros H;
    try (split; exact I); try (simpl in H; contradiction);
    destruct sx, sy; simpl in H; contradiction.
Qed.

Lemma finite_SFmul (x y : spec_float) :
  sf_finite (SF64mul x y) -> sf_finite x /\ sf_finite y.
Proof.
  destruct x as [sx|sx| |sx mx ex], y as [sy|sy| |sy my ey]; intros H;
    try (split; exact I); simpl in H; contradiction.
Qed.

Lemma finite_SFdiv (x y : spec_float) :
  sf_finite (SF64div x y) -> sf_finite x /\ ~ sf_is_zero y.
Proof.
  destruct x as [sx|sx| |sx mx ex], y as [sy|sy| |sy my ey]; intros H;
    try (split; [exact I | intros Hz; exact Hz]); simpl in H; contradiction.
Qed.

Lemma finite_SFsqrt (x : spec_float) : sf_finite (SF64sqrt x) -> sf_finite x.
Proof.
  destruct x as [s|s| |s m e]; intros H; try exact I;
    try destruct s; simpl in H; contradiction.
Qed.

Lemma finite_add (x y : float) :
  is_finite (x + y) = true -> is_finite x = true /\ is_finite y = true.
Proof. rewrite !is_finite_spec, add_spec. apply finite_SFadd. Qed.

Lemma finite_sub (x y : float) :
  is_finite (x - y) = true -> is_finite x = true /\ is_finite y = true.
Proof. rewrite !is_finite_spec, sub_spec. apply finite_SFsub. Qed.

Lemma finite_mul (x y : float) :
  is_finite (x * y) = true -> is_finite x = true /\ is_finite y = true.
Proof. rewrite !is_finite_spec, mul_spec. apply finite_SFmul. Qed.

Lemma finite_div (x y : float) :
  is_finite (x / y) = true -> is_finite x = true /\ is_zero y = false.
Proof.
  rewrite !is_finite_spec, div_spec. intros H.
  apply finite_SFdiv in H as [Hx Hy]. split; [assumption|].
  destruct (is_zero y) eqn:Hz; [|reflexivity].
  apply is_zero_spec in Hz. contradiction.
Qed.

Lemma finite_sqrt (x : float) :
  is_finite (PrimFloat.sqrt x) = true -> is_finite x = true.
Proof. rewrite !is_finite_spec, sqrt_spec. apply finite_SFsqrt. Qed.

(** An operation with a finite result raises no flag. *)
Lemma raised_quiet (x y r : float) : is_finite r = true -> raised x y r = quiet.
Proof.
  unfold raised, is_finite.
  destruct (is_nan r), (is_infinity r); simpl; intros H;
    try discriminate; reflexivity.
Qed.

Lemma raised_div_quiet (x y r : float) :
  is_finite r = true -> raised_div x y r = quiet.
Proof.
  unfold raised_div, is_finite.
  destruct (is_nan r), (is_infinity r); simpl; intros H;
    try discriminate; reflexivity.
Qed.

Lemma raised1_quiet (x r : float) : is_finite r = true -> raised1 x r = quiet.
Proof.
  unfold raised1, is_finite.
  destruct (is_nan r), (is_infinity r); simpl; intros H;
    try discriminate; reflexivity.
Qed.

Lemma each_status_quiet (f : float -> fpstatus) (l : list float) :
  Forall (fun v => f v = quiet) l -> each_status f l = quiet.
Proof.
  induction 1 as [|v l Hv _ IH]; [reflexivity|].
  cbn [each_status fold_right]. fold (each_status f l).
  now rewrite Hv, IH.
Qed.

(** The sum on the status-carrying arithmetic has the value of the sum,
    and a clear status if that value is finite. *)
Lemma sum_tracked (l : list float) :
  fst (Numpy.sum (A := tracking) (map untracked l)) = Numpy.sum l /\
  (is_finite (Numpy.sum l) = true ->
   snd (Numpy.sum (A := tracking) (map untracked l)) = quiet).
Proof.
  apply (@sum_related tracked tracking float float64
           (fun t v => fst t = v /\ (is_finite v = true -> snd t = quiet))).
  - intros a a' b b' [Ha Ha'] [Hb Hb'].
    cbn [fadd tracking float64 fst snd]. subst a' b'.
    split; [reflexivity|]. intros Hf.
    destruct (finite_add _ _ Hf) as [Hfa Hfb].
    rewrite Ha', Hb' by assumption.
    cbn [add_status float64_exceptions].
    now rewrite raised_quiet by assumption.
  - split; [reflexivity | intros _; reflexivity].
  - induction l as [|v l IH]; constructor; [|apply IH].
    split; [reflexivity | intros _; reflexivity].
Qed.

Lemma sum_status_quiet (l : list float) :
  is_finite (Numpy.sum l) = true -> sum_status l = quiet.
Proof. intros H. unfold sum_status. now apply sum_tracked. Qed.

(** A finite sum has finite items. *)
Lemma sum_finite_items (l : list float) :
  is_finite (Numpy.sum l) = true -> Forall (fun v => is_finite v = true) l.
Proof.
  intros H. apply Forall_forall. intros v Hin.
  destruct (is_finite v) eqn:Hv; [reflexivity|]. exfalso.
  assert (Hs : is_finite (Numpy.sum l) = false).
  { apply (@sum_absorbs float float64 (fun x => is_finite x = false)).
    - intros x y Hx. cbn [fadd float64].
      destruct (is_finite (x + y)) eqn:Hxy; [|reflexivity].
      apply finite_add in Hxy as [Hx' _]. congruence.
    - intros x y Hy. cbn [fadd float64].
      destruct (is_finite (x + y)) eqn:Hxy; [|reflexivity].
      apply finite_add in Hxy as [_ Hy']. congruence.
    - apply Exists_exists. eauto. }
  congruence.
Qed.

Lemma of_int_zero : is_zero (float_of_int 0) = true.
Proof. reflexivity. Qed.

(** [np.std] with a finite result: at least two items, and no warning. *)
Lemma std_quiet (arr : list float) :
  is_finite (Numpy.std arr 1) = true -> Store.std_warnings arr 1 = [].
Proof.
  intros Hstd.
  assert (Hvar : is_finite (Numpy.var arr 1) = true) by now apply finite_sqrt.
  pose proof Hvar as Hdiv. unfold Numpy.var in Hdiv. cbv zeta in Hdiv.
  cbn [fdiv float64] in Hdiv. apply finite_div in Hdiv as [Hsum2 Hcount].
  assert (Hn : (2 <= Z.of_nat (length arr))%Z).
  { destruct (Z_le_gt_dec 2 (Z.of_nat (length arr))) as [Hle|Hgt]; [assumption|].
    rewrite Z.max_r in Hcount by lia. cbn [of_int float64] in Hcount.
    rewrite of_int_zero in Hcount. discriminate. }
  pose proof (sum_finite_items _ Hsum2) as Hsq.
  rewrite !Forall_map in Hsq.
  assert (Hdev : Forall (fun v => is_finite (v - Numpy.mean arr) = true) arr).
  { eapply Forall_impl; [|exact Hsq]. intros v Hv. cbv beta in Hv.
    cbn [fmul fsub float64] in Hv. now apply finite_mul in Hv as [Hv _]. }
  assert (Hmean : is_finite (Numpy.mean arr) = true).
  { destruct arr as [|v arr]; [simpl in Hn; lia|].
    inversion Hdev as [|? ? Hv _]; subst. now apply finite_sub in Hv as [_ Hm]. }
  pose proof Hmean as Hm. unfold Numpy.mean in Hm. cbn [fdiv float64] in Hm.
  apply finite_div in Hm as [Hsum1 _].
  unfold Store.std_warnings. cbv zeta.
  replace (Z.of_nat (length arr) <=? 1)%Z with false by (symmetry; apply Z.leb_gt; lia).
  rewrite (sum_status_quiet _ Hsum1), (sum_status_quiet _ Hsum2).
  cbn [div_status sqrt_status float64_exceptions].
  rewrite !raised_div_quiet by assumption.
  rewrite raised1_quiet by exact Hstd.
  rewrite !each_status_quiet; [reflexivity| |].
  - rewrite Forall_map. eapply Forall_impl; [|exact Hsq].
    intros v Hv. cbv beta in Hv. cbn [mul_status float64_exceptions].
    now apply raised_quiet.
  - eapply Forall_impl; [|exact Hdev].
    intros v Hv. cbv beta in Hv. cbn [sub_status float64_exceptions].
    now apply raised_quiet.
Qed.

(** The routine with a finite result: no warning. *)
Lemma routine_quiet (col0 col1 : list float) :
  is_finite (cep_constant *
             PrimFloat.sqrt (square (Numpy.std col0 1) + square (Numpy.std col1 1)))
  = true ->
  Store.routine_warnings col0 col1 = [].
Proof.
  intros H.
  pose proof H as H1. apply finite_mul in H1 as [_ Hsr].
  pose proof Hsr as H2. apply finite_sqrt in H2.
  pose proof H2 as H3. apply finite_add in H3 as [Hx2 Hy2].
  pose proof Hx2 as Hx. unfold square in Hx. cbn [fmul float64] in Hx.
  apply finite_mul in Hx as [Hx _].
  pose proof Hy2 as Hy. unfold square in Hy. cbn [fmul float64] in Hy.
  apply finite_mul in Hy as [Hy _].
  unfold Store.routine_warnings. cbv zeta.
  rewrite (std_quiet _ Hx), (std_quiet _ Hy).
  cbn [square_status add_status sqrt_status mul_status float64_exceptions
       fadd fmul fsqrt float64].
  rewrite !raised1_quiet by assumption.
  rewrite !raised_quiet by (assumption || reflexivity).
  rewrite !raised1_quiet by (assumption || reflexivity).
  reflexivity.
Qed.

(** A run on a list, or on an array, whose outcome is a finite number
    issues no warning. *)
Lemma run_quiet (h : Store.heap float) (w : list Store.warning)
      (coordinates : Store.loc) (items : list (float * float)) :
  nth_error h coordinates = Some (Store.PyList items) ->
  exists (fresh : Store.heap float) (issued : list Store.warning),
    Store.calculate_cep coordinates (Store.State h w) =
    (cep64 items, Store.State (h ++ fresh) (w ++ issued)) /\
    (forall v, cep64 items = Ok v -> is_finite v = true -> issued = []).
Proof.
  intros Hl.
  destruct (@calculate_cep_run _ _ _ h w coordinates items Hl) as (fresh & issued & Hrun & Hw).
  exists fresh, issued. split; [exact Hrun|].
  intros v Hv Hfin. destruct items as [|p s]; [exact Hw|].
  rewrite Hw. apply routine_quiet.
  unfold cep64 in Hv. rewrite calculate_cep_cons in Hv.
  set (r := fmul _ _) in Hv.
  assert (Hr : v = r) by congruence.
  rewrite Hr in Hfin. exact Hfin.
Qed.

Lemma run_quiet_ndarray (h : Store.heap float) (w : list Store.warning)
      (coordinates : Store.loc) (a : Numpy.ndarray float) :
  nth_error h coordinates = Some (Store.NdArray a) ->
  exists (fresh : Store.heap float) (issued : list Store.warning),
    Store.calculate_cep coordinates (Store.State h w) =
    (cep64_ndarray a, Store.State (h ++ fresh) (w ++ issued)) /\
    (forall v, cep64_ndarray a = Ok v -> is_finite v = true -> issued = []).
Proof.
  intros Hl.
  destruct (@calculate_cep_run_ndarray _ _ _ h w coordinates a Hl) as (fresh & issued & Hrun & Hw).
  exists fresh, issued. split; [exact Hrun|].
  intros v Hv Hfin. destruct a as [items|rows]; [exact Hw|].
  cbn [Numpy.column] in Hw. rewrite Hw. apply routine_quiet.
  unfold cep64_ndarray, calculate_cep_ndarray in Hv.
  cbn [Numpy.column bind] in Hv.
  set (r := fmul _ _) in Hv.
  assert (Hr : v = r) by congruence.
  rewrite Hr in Hfin. exact Hfin.
Qed.

End Float64Warnings.

(** ** The formula of the specification on a sample of doubles *)

Section FormulaFacts.
Import Samples.
Local Open Scope R_scope.

Lemma real_of_big : real_of big = 9007199254740992.
Proof.
  unfold real_of. change (float_value big) with (Some (9007199254740992 # 1)%Q).
  unfold Q2R. cbn [Qnum Qden]. field.
Qed.

Lemma real_of_big2 : real_of big2 = 9007199254740994.
Proof.
  unfold real_of. change (float_value big2) with (Some (9007199254740994 # 1)%Q).
  unfold Q2R. cbn [Qnum Qden]. field.
Qed.

(** The standard deviation of 2^53, 2^53 + 2, 2^53 + 2 is sqrt(4/3). *)
Lemma skewed_std :
  Spec.std [9007199254740992; 9007199254740994; 9007199254740994]
  = R_sqrt.sqrt (4 / 3).
Proof.
  unfold Spec.std, Spec.mean, Spec.sigma. cbn [map fold_right length].
  change (INR 3) with (1 + 1 + 1). f_equal. field.
Qed.

(** On the three points of [skewed_both] the formula gives
    sqrt(8/3) * sqrt(2 ln 2), about 1.92. *)
Lemma skewed_formula_value : Spec.CEP (map real_point skewed_both) < 2.
Proof.
  unfold skewed_both, real_point. cbn [map fst snd].
  rewrite real_of_big, real_of_big2.
  unfold Spec.CEP, Spec.sigma_r. cbn [map fst snd].
  rewrite skewed_std, pow2_sqrt by lra.
  pose proof ln_half_bounds as [Hlo Hhi].
  rewrite <- sqrt_mult by lra.
  set (z := (4 / 3 + 4 / 3) * (-2 * ln (1 / 2))).
  assert (Hz : R_sqrt.sqrt z < R_sqrt.sqrt (2 * 2))
    by (apply sqrt_lt_1_alt; unfold z; lra).
  rewrite sqrt_square in Hz by lra. exact Hz.
Qed.

End FormulaFacts.

(** * The claims *)

Section Claims.
Import Samples.

(** C1, as stated, fails in double precision.  The three points of
    [skewed_both] have finite coordinates; the specification's formula
    gives sqrt(8/3) * sqrt(-2 ln 0.5), below 2, on them.  The routine sums
    each column to 3 * 2^53 (both additions round down), takes 2^53 as the
    mean and 0, 2, 2 as the deviations: both standard deviations are 2, not
    sqrt(4/3), and the result is above 3.  (The squares of line 32 are
    squares of 2, which every [pow] returns exactly.) *)
Lemma formula_missed_in_double :
  (2 <= length skewed_both)%nat /\
  Forall (fun p => is_finite (fst p) = true /\ is_finite (snd p) = true)
         skewed_both /\
  cep64 skewed_both = Ok 0x1.aa4499161cd48p+1%float /\
  (3 <? 0x1.aa4499161cd48p+1)%float = true /\
  (Spec.CEP (map real_point skewed_both) < 2)%R.
Proof.
  split; [simpl; lia|]. split; [repeat constructor|].
  split; [vm_compute; reflexivity|]. split; [reflexivity|].
  apply skewed_formula_value.
Qed.

(** C1, amended. In exact arithmetic, for a sample of N >= 2 points the
    routine returns the value of the specification's formula,
    sqrt(std_x^2 + std_y^2) * sqrt(-2 ln 0.5), std_x and std_y being the
    Bessel-corrected (denominator N - 1) standard deviations of the two
    columns. *)
Theorem calculate_cep_formula (sample : list (R * R)) :
  (2 <= length sample)%nat -> cepR sample = Ok (Spec.CEP sample).
Proof.
  intros Hn. unfold cepR. destruct sample as [|p s]; [simpl in Hn; lia|].
  rewrite calculate_cep_cons.
  rewrite !std_formula by (rewrite length_map; exact Hn).
  unfold Spec.CEP, Spec.sigma_r, square, cep_constant.
  cbn [fmul fadd fsqrt of_int log_half exact].
  f_equal. rewrite Rmult_comm. do 2 f_equal. ring.
Qed.

Lemma calculate_cep_formula_witness :
  cepR [(0, 0); (3, 4)]%R = Ok (Spec.CEP [(0, 0); (3, 4)]%R).
Proof. apply calculate_cep_formula. simpl. lia. Defined.

(** C2, as stated, fails: a sample of one point raises nothing.  On
    [(1, 2)] each column has mean equal to its item, deviation 0, sum of
    squares 0 and divisor max(1 - 1, 0) = 0; 0/0 is NaN, and the routine
    returns NaN. *)
Lemma single_point_returns_nan :
  (length [(1, 2)%float] < 2)%nat /\ cep64 [(1, 2)%float] = Ok nan.
Proof. split; [simpl; lia | vm_compute; reflexivity]. Qed.

(** C2, amended. The empty list, like any one-dimensional array, fails
    with IndexError and no value ([np.array([])] has one dimension and
    [data[:, 0]] asks for two); an empty array of shape (0, 2) does not
    fail: the routine returns NaN; a sample of one point, as a list or as
    an array of shape (1, 2), does not fail: the routine returns NaN. *)
Theorem short_sample_outcomes :
  cep64 [] = Raise IndexError /\
  (forall items : list float,
      cep64_ndarray (Numpy.Arr1 items) = Raise IndexError) /\
  (exists v, cep64_ndarray (Numpy.Arr2 []) = Ok v /\ is_nan v = true) /\
  (forall p : float * float, exists v, cep64 [p] = Ok v /\ is_nan v = true) /\
  (forall p : float * float,
      exists v, cep64_ndarray (Numpy.Arr2 [p]) = Ok v /\ is_nan v = true).
Proof.
  split; [reflexivity|]. split; [reflexivity|].
  split; [exists nan; split; vm_compute; reflexivity|].
  split; apply cep64_single.
Qed.




(** C4, as stated, fails in double precision.  Moved by 2^54 along x, the
    points (0,0) and (1,0) both land on (2^54, 0), since 1 + 2^54 rounds to
    2^54: the result is 0, where the original sample gives 0.8325... *)
Lemma translation_changes_result :
  (2 <= length unit_pair)%nat /\
  cep64 (map (translate 0x1p54%float 0%float) unit_pair) = Ok 0%float /\
  cep64 unit_pair = Ok 0x1.aa4499161cd48p-1%float /\
  cep64 (map (translate 0x1p54%float 0%float) unit_pair) <> cep64 unit_pair.
Proof.
  split; [simpl; lia|].
  split; [vm_compute; reflexivity|]. split; [vm_compute; reflexivity|].
  apply result_neq; vm_compute; reflexivity.
Qed.

(** C4, amended. In exact arithmetic the result for a sample of N >= 2
    points does not change when (dx, dy) is added to every point. *)
Theorem translation_invariant_exact (dx dy : R) (s : list (R * R)) :
  (2 <= length s)%nat -> cepR (map (translate dx dy) s) = cepR s.
Proof. intros _. apply cepR_translate. Qed.

Lemma translation_invariant_exact_witness :
  cepR (map (translate 5 (-1)) [(0, 0); (3, 4)])%R = cepR [(0, 0); (3, 4)]%R.
Proof. apply translation_invariant_exact. simpl. lia. Defined.

(** C5, as stated, fails in double precision.  Scaled by 2^600, the points
    (0,0) and (1,0) have deviations of 2^599 from their mean, whose squares
    overflow: the result is +infinity, where 2^600 times the original result
    is the finite 0.8325... * 2^600. *)
Lemma scaling_overflows :
  (0 <? 0x1p600)%float = true /\ (2 <= length unit_pair)%nat /\
  cep64 (map (scale 0x1p600%float) unit_pair) = Ok infinity /\
  times 0x1p600%float (cep64 unit_pair) = Ok 0x1.aa4499161cd48p+599%float /\
  cep64 (map (scale 0x1p600%float) unit_pair) <> times 0x1p600%float (cep64 unit_pair).
Proof.
  split; [reflexivity|]. split; [simpl; lia|].
  split; [vm_compute; reflexivity|]. split; [vm_compute; reflexivity|].
  apply result_neq. vm_compute. reflexivity.
Qed.

(** C5, amended. In exact arithmetic, multiplying every coordinate of a
    sample of N >= 2 points by k > 0 multiplies the result by k. *)
Theorem scaling_linear_exact (k : R) (s : list (R * R)) :
  (0 < k)%R -> (2 <= length s)%nat ->
  cepR (map (scale k) s) = times k (cepR s).
Proof. intros Hk _. apply cepR_scale. lra. Qed.

Lemma scaling_linear_exact_witness :
  cepR (map (scale 2) [(0, 0); (3, 4)])%R = times 2%R (cepR [(0, 0); (3, 4)]%R).
Proof. apply scaling_linear_exact; [lra | simpl; lia]. Defined.

(** C6, as stated, fails in double precision.  With 0.1 the double nearest
    to one tenth, 0.1 + 0.1 + 0.1 is 0.30000000000000004 and its third
    rounds to the double above 0.1: every deviation is -1.39e-17 and the
    result is 2.83e-17. *)
Lemma identical_points_nonzero :
  (2 <= length tenths)%nat /\
  Forall (fun q => q = (tenth, tenth)) tenths /\
  cep64 tenths = Ok 0x1.0508e55795f63p-55%float /\
  (0 <? 0x1.0508e55795f63p-55)%float = true.
Proof.
  split; [simpl; lia|]. split; [repeat constructor|].
  split; vm_compute; reflexivity.
Qed.

(** C6, amended. In exact arithmetic a sample of N >= 2 identical points
    gives 0; in double precision the sample [(0,0),(0,0)] gives 0.0. *)
Theorem identical_points_zero :
  (forall (p : R * R) (s : list (R * R)),
      (2 <= length s)%nat -> Forall (fun q => q = p) s -> cepR s = Ok 0%R) /\
  cep64 origin_twice = Ok 0%float.
Proof.
  split.
  - intros p s Hn Hp. apply (@cepR_identical p); [|assumption].
    destruct s; [simpl in Hn; lia | discriminate].
  - vm_compute. reflexivity.
Qed.

Lemma identical_points_zero_witness :
  cepR [(3, 4); (3, 4)]%R = Ok 0%R.
Proof.
  apply (proj1 identical_points_zero (3, 4)%R); [simpl; lia | repeat constructor].
Defined.

(** C7, as stated, fails in double precision.  The finite points (0,0) and
    (2^600, 0) have deviations of 2^599 from their mean, whose squares
    overflow: the result is +infinity. *)
Lemma finite_sample_overflows :
  (2 <= length wide_pair)%nat /\
  Forall (fun p => is_finite (fst p) = true /\ is_finite (snd p) = true) wide_pair /\
  cep64 wide_pair = Ok infinity /\ is_finite infinity = false.
Proof.
  split; [simpl; lia|]. split; [repeat constructor|].
  split; vm_compute; reflexivity.
Qed.

(** C7, amended. For a sample of N >= 2 points the value returned is never
    negative: in double precision it is NaN or at least 0 (infinity
    included), in exact arithmetic it is at least 0. *)
Theorem result_never_negative :
  (forall s : list (float * float),
      (2 <= length s)%nat ->
      exists v, cep64 s = Ok v /\ (is_nan v = true \/ nonnegative v = true)) /\
  (forall s : list (R * R),
      (2 <= length s)%nat ->
      exists v, cepR s = Ok v /\ (0 <= v)%R).
Proof.
  split; intros s Hn.
  - destruct (@cep64_value s) as [v Hv].
    { destruct s; [simpl in Hn; lia | discriminate]. }
    exists v. split; [assumption|]. now apply (@cep64_nonneg s).
  - destruct s as [|p s]; [simpl in Hn; lia|].
    unfold cepR. rewrite calculate_cep_cons. eexists. split; [reflexivity|].
    apply (@cepR_nonneg (p :: s)). unfold cepR. now rewrite calculate_cep_cons.
Qed.

Lemma result_never_negative_witness :
  (exists v, cep64 wide_pair = Ok v /\ (is_nan v = true \/ nonnegative v = true)) /\
  (exists v, cepR [(0, 0); (3, 4)]%R = Ok v /\ (0 <= v)%R).
Proof.
  split.
  - apply (proj1 result_never_negative). simpl. lia.
  - apply (proj2 result_never_negative). simpl. lia.
Defined.

(** C8. On the sample (1,0), (-1,0), (0,1), (0,-1) the routine returns a
    value within 0.0005 of 1.3596: the double it computes, and the real
    number sqrt(-2 ln 0.5) * sqrt(2/3 + 2/3) it stands for. *)
Theorem symmetric_sample_value :
  (exists (v : float) (q : Q),
      cep64 cross = Ok v /\ float_value v = Some q /\
      (Qabs (q - (13596 # 10000)) < 5 # 10000)%Q) /\
  (exists v : R,
      cepR [(1, 0); (-1, 0); (0, 1); (0, -1)]%R = Ok v /\
      v = (R_sqrt.sqrt (-2 * ln (1 / 2)) * R_sqrt.sqrt (2 / 3 + 2 / 3))%R /\
      (Rabs (v - 13596 / 10000) < 5 / 10000)%R).
Proof.
  split.
  - do 2 eexists. split; [vm_compute; reflexivity|].
    split; vm_compute; reflexivity.
  - eexists. split; [apply cross_exact|].
    split; [reflexivity | apply cross_exact_value].
Qed.

(** C9, as stated, fails twice.  The result is not a function of the
    multiset of points: the samples [skewed_y] and [skewed_y_rev] hold the
    same three points, their y columns are summed in different orders (as
    the x columns of C3) and the results differ.  And a call can change
    state outside its result: on the one point (1, 2), [np.std] finds
    [ddof >= rcount] and hands a RuntimeWarning ("Degrees of freedom <= 0
    for slice") to Python's [warnings] module. *)
Lemma calculate_cep_impure :
  (Permutation skewed_y skewed_y_rev /\
   cep64 skewed_y = Ok 0x1.2d6abe44afc43p+1%float /\
   cep64 skewed_y_rev = Ok 0x1.aa4499161cd48p+0%float /\
   cep64 skewed_y <> cep64 skewed_y_rev) /\
  (exists (fresh : Store.heap float) (later : list Store.warning),
      Store.calculate_cep 0%nat (Store.State [Store.PyList [(1, 2)%float]] []) =
      (Ok nan,
       Store.State ([Store.PyList [(1, 2)%float]] ++ fresh)
                   (Store.DegreesOfFreedom :: later))).
Proof.
  split.
  - split.
    + unfold skewed_y, skewed_y_rev.
      apply (Permutation_cons_app [(0%float, big2); (0%float, big2)] []).
      apply Permutation_refl.
    + split; [vm_compute; reflexivity|]. split; [vm_compute; reflexivity|].
      apply result_neq. vm_compute. reflexivity.
  - eexists. eexists. vm_compute. reflexivity.
Qed.

(** C9, amended. The outcome of a call is a function of the sequence of
    points in the caller's list (or of the array, if the argument is one):
    it is [cep64] of that sequence whatever else the state holds, so two
    calls on equal sequences have equal outcomes.  The call changes no
    object that existed before it: the objects it leaves are those it found
    followed by the arrays it created.  The warnings it leaves are those it
    found followed by those it issued, and it issued none if the outcome is
    a finite number. *)
Theorem calculate_cep_pure :
  (forall (s : Store.state float) (coordinates : Store.loc)
          (items : list (float * float)),
      nth_error (Store.objects s) coordinates = Some (Store.PyList items) ->
      exists (fresh : Store.heap float) (issued : list Store.warning),
        Store.calculate_cep coordinates s =
        (cep64 items,
         Store.State (Store.objects s ++ fresh) (Store.warned s ++ issued)) /\
        (forall v, cep64 items = Ok v -> is_finite v = true -> issued = [])) /\
  (forall (s : Store.state float) (coordinates : Store.loc)
          (a : Numpy.ndarray float),
      nth_error (Store.objects s) coordinates = Some (Store.NdArray a) ->
      exists (fresh : Store.heap float) (issued : list Store.warning),
        Store.calculate_cep coordinates s =
        (cep64_ndarray a,
         Store.State (Store.objects s ++ fresh) (Store.warned s ++ issued)) /\
        (forall v, cep64_ndarray a = Ok v -> is_finite v = true -> issued = [])) /\
  (forall (s s' : Store.state float) (coordinates coordinates' : Store.loc)
          (items : list (float * float)),
      nth_error (Store.objects s) coordinates = Some (Store.PyList items) ->
      nth_error (Store.objects s') coordinates' = Some (Store.PyList items) ->
      fst (Store.calculate_cep coordinates s) =
      fst (Store.calculate_cep coordinates' s')).
Proof.
  split; [|split].
  - intros [h w] coordinates items. apply run_quiet.
  - intros [h w] coordinates a. apply run_quiet_ndarray.
  - intros [h w] [h' w'] coordinates coordinates' items H H'.
    destruct (@run_quiet h w coordinates items H) as (fresh & issued & -> & _).
    destruct (@run_quiet h' w' coordinates' items H') as (fresh' & issued' & -> & _).
    reflexivity.
Qed.

Lemma calculate_cep_pure_witness :
  (exists (fresh : Store.heap float) (issued : list Store.warning),
      Store.calculate_cep 1%nat
        (Store.State [Store.PyList unit_pair; Store.PyList cross] []) =
      (cep64 cross,
       Store.State ([Store.PyList unit_pair; Store.PyList cross] ++ fresh)
                   ([] ++ issued)) /\
      (forall v, cep64 cross = Ok v -> is_finite v = true -> issued = [])) /\
  fst (Store.calculate_cep 1%nat
         (Store.State [Store.PyList unit_pair; Store.PyList cross] [])) =
  fst (Store.calculate_cep 0%nat (Store.State [Store.PyList cross] [])).
Proof.
  split.
  - apply (proj1 calculate_cep_pure
             (Store.State [Store.PyList unit_pair; Store.PyList cross] [])).
    reflexivity.
  - apply (proj2 (proj2 calculate_cep_pure)) with (items := cross); reflexivity.
Defined.

(** C10. A sample of N >= 2 points with a NaN coordinate is not rejected:
    the routine returns NaN. *)
Theorem nan_propagates (sample : list (float * float)) :
  (2 <= length sample)%nat ->
  Exists (fun p => is_nan (fst p) = true \/ is_nan (snd p) = true) sample ->
  exists v, cep64 sample = Ok v /\ is_nan v = true.
Proof. intros _. apply cep64_nan. Qed.

Lemma nan_propagates_witness :
  exists v, cep64 [(1, 2); (nan, 0)]%float = Ok v /\ is_nan v = true.
Proof.
  apply nan_propagates; [simpl; lia|].
  apply Exists_cons_tl, Exists_cons_hd. left. reflexivity.
Defined.

End Claims.

(** * Further properties *)

Section Further.
Import Stdlib.Strings.Ascii Stdlib.Strings.String.

(** X1. In double precision, exchanging the x and the y coordinate of every
    point of a sample leaves the outcome of the routine the same: the same
    error on the empty list, NaN where it was NaN, and otherwise the same
    double, bit for bit.  The two columns enter only through
    [std_x**2 + std_y**2], and the addition of doubles is commutative.
    (Which NaN a NaN outcome is, its sign bit and payload, is outside the
    model and can differ in the program.) *)
Theorem axis_swap_invariant (s : list (float * float)) :
  same_outcome (cep64 s) (cep64 (map swap_axes s)).
Proof. apply same_outcome_eq, cep64_swap_axes. Qed.

(** X2. In double precision, negating the x coordinate of every point, or
    the y coordinate of every point, leaves the outcome the same: the same
    error on the empty list, NaN where it was NaN, and otherwise the same
    double, bit for bit.  Rounding to nearest is symmetric, so every sum
    and mean of the negated column is the negation of the original one (or
    both are zeros) and the squared deviations that are not NaN are the
    same doubles.  (The sign bit of a NaN, which negation flips in the
    program, is outside the model.) *)
Theorem mirror_invariant (s : list (float * float)) :
  same_outcome (cep64 s) (cep64 (map mirror_x s)) /\
  same_outcome (cep64 s) (cep64 (map mirror_y s)).
Proof.
  split; apply same_outcome_eq; [apply cep64_mirror_x | apply cep64_mirror_y].
Qed.

(** X3. In double precision, turning every point of a sample by a quarter
    of a turn about the origin, (x, y) to (-y, x), leaves the outcome the
    same: the same error on the empty list, NaN where it was NaN, and
    otherwise the same double, bit for bit. *)
Theorem quarter_turn_invariant (s : list (float * float)) :
  same_outcome (cep64 s) (cep64 (map quarter_turn s)).
Proof. apply same_outcome_eq, cep64_quarter_turn. Qed.

(** X4. A sample with an infinite coordinate is not rejected: the routine
    returns NaN.  The sum of the column is that infinity or NaN, so is the
    mean, and the deviation of the infinite item from it is NaN. *)
Theorem infinite_coordinate_gives_nan (s : list (float * float)) :
  Exists (fun p => is_infinity (fst p) = true \/ is_infinity (snd p) = true) s ->
  exists v, cep64 s = Ok v /\ is_nan v = true.
Proof. apply cep64_infinite. Qed.

Lemma infinite_coordinate_gives_nan_witness :
  exists v, cep64 [(0, 0); (infinity, 1)]%float = Ok v /\ is_nan v = true.
Proof.
  apply infinite_coordinate_gives_nan.
  apply Exists_cons_tl, Exists_cons_hd. left. reflexivity.
Defined.

(** X5. In exact arithmetic the outcome does not change when every point of
    the sample is turned by the same angle about the origin: the sum of the
    two variances is the mean squared distance from the centroid (over
    N - 1), which a rotation preserves. *)
Theorem rotation_invariant_exact (theta : R) (s : list (R * R)) :
  cepR (map (rotate theta) s) = cepR s.
Proof. apply cepR_rotate. Qed.

(** X6. In exact arithmetic a sample of N >= 2 points on which the routine
    returns 0 consists of N copies of one point. *)
Theorem zero_only_if_identical (s : list (R * R)) :
  (2 <= List.length s)%nat -> cepR s = Ok 0%R ->
  exists p, Forall (fun q => q = p) s.
Proof. apply cepR_zero_identical. Qed.

Lemma zero_only_if_identical_witness :
  exists p, Forall (fun q => q = p) [(3, 4); (3, 4)]%R.
Proof.
  apply zero_only_if_identical; [simpl; lia|].
  apply (@cepR_identical (3, 4)%R); [discriminate | repeat constructor].
Defined.

(** X7. In exact arithmetic the routine on two points returns
    sqrt(-2 ln 0.5) times their distance over sqrt 2. *)
Theorem two_point_value (x1 y1 x2 y2 : R) :
  cepR [(x1, y1); (x2, y2)] =
  Ok (cep_constant *
      R_sqrt.sqrt (((x1 - x2) * (x1 - x2) + (y1 - y2) * (y1 - y2)) / 2))%R.
Proof. apply cepR_two_points. Qed.

(** X8. The constant [np.sqrt(-2 * np.log(0.5))] is the 1.1774 of the
    comment above it: the real number lies between 1.1774 and 1.1775, and
    the double the routine computes is written 1.1774 to four decimals. *)
Theorem cep_constant_value :
  (11774 / 10000 < cep_constant (A := exact) < 11775 / 10000)%R /\
  Format.format_f 4 (cep_constant (A := float64)) = "1.1774"%string.
Proof. split; [apply cep_constant_exact_bounds | vm_compute; reflexivity]. Qed.

(** X9. The text [format(x, '.<d>f')] gives for a finite double is a
    decimal number that reads back within half a unit of its last place of
    the value of the double: the [.3f] of the report shows the result to
    within 0.0005, the [.2f] the coordinates to within 0.005. *)
Theorem format_reads_back (d : nat) (x : float) (v : Q) :
  float_value x = Some v ->
  exists q, Format.read_fixed (Format.format_f d x) = Some q /\
            (Qabs (q - v) <= 1 # Z.to_pos (2 * 10 ^ Z.of_nat d))%Q.
Proof. apply format_f_near. Qed.

Lemma format_reads_back_witness :
  exists q, Format.read_fixed (Format.format_f 2 0.125%float) = Some q /\
            (Qabs (q - (4503599627370496 # 36028797018963968)) <= 1 # 200)%Q.
Proof. apply (@format_reads_back 2 0.125%float). reflexivity. Defined.

(** X10. The script, for any value of [sample_data]: on the empty list the
    call of [calculate_cep] raises IndexError before anything is printed;
    otherwise the run ends normally, having printed the heading, one line
    per point in the order of the list, the result of [calculate_cep]
    between two rules, and the interpretation. *)
Theorem script_outcome (sample_data : list (float * float)) (out : string) :
  match sample_data with
  | [] => Script.main_on sample_data out = (Raise IndexError, out)
  | _ :: _ =>
      exists cep_value,
        cep64 sample_data = Ok cep_value /\
        Script.main_on sample_data out =
        (Ok tt,
         out ++ "Sample Data Points:" ++ Script.nl
           ++ fold_right (fun point rest =>
                            Script.point_text point ++ Script.nl ++ rest)
                         EmptyString sample_data
           ++ Script.nl ++ "-------------------------------------------" ++ Script.nl
           ++ Script.cep_text cep_value ++ Script.nl
           ++ "-------------------------------------------" ++ Script.nl
           ++ Script.nl ++ "Interpretation:" ++ Script.nl
           ++ "This means that approximately 50% of the data points are expected to fall" ++ Script.nl
           ++ "within a circle with a radius of this value, centered at the average" ++ Script.nl
           ++ "location of the data points." ++ Script.nl)%string
  end.
Proof.
  destruct sample_data as [|p s]; [reflexivity|].
  destruct (@cep64_value (p :: s)) as [v Hv]; [discriminate|].
  exists v. split; [assumption|].
  unfold Script.main_on, Script.seq at 1, Script.lift. rewrite Hv.
  apply report_run.
Qed.

(** X11. In exact arithmetic, multiplying every coordinate by any real
    factor k, negative or zero included, multiplies the result by |k|. *)
Theorem scaling_by_any_factor (k : R) (s : list (R * R)) :
  cepR (map (scale k) s) = times (Rabs k) (cepR s).
Proof. apply cepR_scale_any. Qed.

(** The run of the script as it stands. *)
Example script_transcript :
  Script.main EmptyString =
  (Ok tt,
   "Sample Data Points:
  (1.20, 0.50)
  (-0.80, -1.00)
  (2.10, 1.80)
  (0.30, -2.50)
  (-1.50, 0.90)
  (0.00, 0.00)
  (-2.00, -1.50)
  (1.50, -0.50)
  (-0.10, 1.00)
  (0.80, 2.00)

-------------------------------------------
Calculated Circular Error Probable (CEP): 2.305
-------------------------------------------

Interpretation:
This means that approximately 50% of the data points are expected to fall
within a circle with a radius of this value, centered at the average
location of the data points.
"%string).
Proof. vm_compute. reflexivity. Qed.

End Further.
